(** * AudioDSP: ring buffer, effect library, menu and scheduler

    A shallow embedding of the signal-processing core of the AudioDSP
    firmware (STM32H745, Cortex-M7): [ringbuffer.c], [fx_lib.c],
    [user_interface.c] and the control loop of [main.c].

    Conventions.
    - Unsigned machine integers are [Z] with the wrap-around written out
      ([to_size_t], [to_uint8], [to_uint16]); [size_t] is 32 bits wide on
      the target.
    - [float32_t] and [double] values are [spec_float]s of the IEEE-754
      binary32 and binary64 formats, with the operations of [SpecFloat].
    - Memory regions are [list byte]; a pointer that may be [NULL] is an
      [option].
    - A function whose C source can run into undefined behaviour (an access
      outside an array, a conversion whose result does not fit) returns an
      [option]: [None] stands for the undefined execution. Two places of
      [display_menu] are kept as data instead, so that the menu state can be
      followed past them: the unsequenced update of [item_selected] (the
      type [unsequenced]) and the unterminated string handed to the display
      (the event [lcd_send_unterminated]). *)

From Stdlib Require Import ZArith Lia Bool Strings.Byte String SpecFloat.
From stdpp Require Import base option list.

Local Open Scope Z_scope.

(** ** Machine integers *)

Module MachineInt.

Definition wrap (bits z : Z) : Z := z mod 2 ^ bits.

Definition to_uint8 (z : Z) : Z := wrap 8 z.
Definition to_uint16 (z : Z) : Z := wrap 16 z.
Definition to_uint32 (z : Z) : Z := wrap 32 z.

(** [size_t] on the 32-bit ARM target. *)
Definition to_size_t (z : Z) : Z := wrap 32 z.

Definition to_signed (bits z : Z) : Z :=
  let u := wrap bits z in
  if u <? 2 ^ (bits - 1) then u else u - 2 ^ bits.

Definition to_int8 (z : Z) : Z := to_signed 8 z.
Definition to_int16 (z : Z) : Z := to_signed 16 z.
Definition to_int (z : Z) : Z := to_signed 32 z.

End MachineInt.

Import MachineInt.

(** ** Memory regions *)

Module Memory.

(** [memcpy(&dst[off], src, n)]: undefined when the destination range or
    the source range leaves its object. *)
Definition memcpy_to (dst : list byte) (off : Z) (src : list byte) (n : Z)
  : option (list byte) :=
  if (0 <=? off) && (0 <=? n) && (off + n <=? Z.of_nat (length dst))
     && (n <=? Z.of_nat (length src))
  then Some (take (Z.to_nat off) dst ++ take (Z.to_nat n) src
             ++ drop (Z.to_nat (off + n)) dst)
  else None.

(** [memcpy(dst, &src[off], n)]. *)
Definition memcpy_from (dst : list byte) (src : list byte) (off n : Z)
  : option (list byte) :=
  if (0 <=? off) && (0 <=? n) && (off + n <=? Z.of_nat (length src))
     && (n <=? Z.of_nat (length dst))
  then Some (take (Z.to_nat n) (drop (Z.to_nat off) src)
             ++ drop (Z.to_nat n) dst)
  else None.

(** [memset(dst, 0, n)]. *)
Definition memset_zero (dst : list byte) (n : Z) : option (list byte) :=
  if (0 <=? n) && (n <=? Z.of_nat (length dst))
  then Some (replicate (Z.to_nat n) Byte.x00 ++ drop (Z.to_nat n) dst)
  else None.

End Memory.

Import Memory.

(** ** ringbuffer.c *)

Module RingBuffer.

Definition RING_BUFFER_MAX : Z := 1.
Definition SUCCESS : Z := 0.
Definition FAILURE : Z := -1.

(** [rb_handle_t]: the attributes the caller passes to the
    initialisation routine. *)
Record rb_handle_t := mk_rb_handle {
  element_size : Z;
  max_elements : Z;
  buffer : option (list byte)
}.

(** [struct ring_buffer]: head and tail are never wrapped to the capacity;
    they overflow as [size_t]. *)
Record ring_buffer := mk_ring_buffer {
  rb_element_size : Z;
  rb_max_elements : Z;
  rb_buf : option (list byte);
  rb_head : Z;
  rb_tail : Z
}.

(** The file-private table [_rb] and the function-static counter [index]
    of [ring_buffer_init]. *)
Record rb_state := mk_rb_state {
  index : Z;
  _rb : list ring_buffer
}.

Definition rb_zero : ring_buffer :=
  {| rb_element_size := 0; rb_max_elements := 0; rb_buf := None;
     rb_head := 0; rb_tail := 0 |}.

(** Static storage is zero-initialised. *)
Definition rb_initial : rb_state :=
  {| index := 0; _rb := replicate (Z.to_nat RING_BUFFER_MAX) rb_zero |}.

(** [_rb[i]] as an rvalue and as an lvalue. *)
Definition slot_load (st : rb_state) (i : Z) : option ring_buffer :=
  if 0 <=? i then _rb st !! Z.to_nat i else None.

Definition slot_store (st : rb_state) (i : Z) (rb : ring_buffer)
  : option rb_state :=
  if (0 <=? i) && (i <? Z.of_nat (length (_rb st)))
  then Some {| index := index st; _rb := <[Z.to_nat i := rb]> (_rb st) |}
  else None.

(** [((attr->max_elements - 1) & attr->max_elements) == 0] *)
Definition pow2_check (n : Z) : bool :=
  Z.land (to_size_t (n - 1)) n =? 0.

(** [ring_buffer_init]: [rbd] is the pointee of the designator pointer
    ([None] for a [NULL] pointer); the result carries the return code, the
    new pointee and the new module state. *)
Definition ring_buffer_init (st : rb_state) (rbd : option Z)
    (attr : option rb_handle_t) : option (Z * option Z * rb_state) :=
  match rbd, attr with
  | Some _, Some a =>
      if index st <? RING_BUFFER_MAX then
        match buffer a with
        | Some b =>
            if (0 <? element_size a) && pow2_check (max_elements a) then
              st' ← slot_store st (index st)
                      {| rb_element_size := element_size a;
                         rb_max_elements := max_elements a;
                         rb_buf := Some b;
                         rb_head := 0;
                         rb_tail := 0 |};
              Some (SUCCESS, Some (to_uint8 (index st)),
                    {| index := to_int (index st + 1); _rb := _rb st' |})
            else Some (FAILURE, rbd, st)
        | None => Some (FAILURE, rbd, st)
        end
      else Some (FAILURE, rbd, st)
  | _, _ => Some (FAILURE, rbd, st)
  end.

Definition _ring_buffer_full (rb : ring_buffer) : Z :=
  if to_size_t (rb_head rb - rb_tail rb) =? rb_max_elements rb then 1 else 0.

Definition _ring_buffer_empty (rb : ring_buffer) : Z :=
  if to_size_t (rb_head rb - rb_tail rb) =? 0 then 1 else 0.

Definition ring_buffer_count (st : rb_state) (rbd : Z) : option Z :=
  rb ← slot_load st rbd;
  Some (to_int (to_size_t (rb_head rb - rb_tail rb))).

(** Byte offset of the slot a counter value designates. *)
Definition slot_offset (rb : ring_buffer) (counter : Z) : Z :=
  to_size_t (Z.land counter (to_size_t (rb_max_elements rb - 1))
             * rb_element_size rb).

Definition ring_buffer_put (st : rb_state) (rbd : Z) (data : list byte)
  : option (Z * rb_state) :=
  if rbd <? RING_BUFFER_MAX then
    rb ← slot_load st rbd;
    if _ring_buffer_full rb =? 0 then
      let offset := slot_offset rb (rb_head rb) in
      b ← rb_buf rb;
      b' ← memcpy_to b offset data (rb_element_size rb);
      st' ← slot_store st rbd
              {| rb_element_size := rb_element_size rb;
                 rb_max_elements := rb_max_elements rb;
                 rb_buf := Some b';
                 rb_head := to_size_t (rb_head rb + 1);
                 rb_tail := rb_tail rb |};
      Some (SUCCESS, st')
    else Some (FAILURE, st)
  else Some (FAILURE, st).

(** [ring_buffer_get]: [data] is the object the caller's pointer
    designates; the result carries its new contents. *)
Definition ring_buffer_get (st : rb_state) (rbd : Z) (data : list byte)
  : option (Z * list byte * rb_state) :=
  if rbd <? RING_BUFFER_MAX then
    rb ← slot_load st rbd;
    if _ring_buffer_empty rb =? 0 then
      let offset := slot_offset rb (rb_tail rb) in
      b ← rb_buf rb;
      data' ← memcpy_from data b offset (rb_element_size rb);
      st' ← slot_store st rbd
              {| rb_element_size := rb_element_size rb;
                 rb_max_elements := rb_max_elements rb;
                 rb_buf := rb_buf rb;
                 rb_head := rb_head rb;
                 rb_tail := to_size_t (rb_tail rb + 1) |};
      Some (SUCCESS, data', st')
    else Some (FAILURE, data, st)
  else Some (FAILURE, data, st).

Definition ring_buffer_clear (st : rb_state) (rbd : Z) : option rb_state :=
  rb ← slot_load st rbd;
  b ← rb_buf rb;
  b' ← memset_zero b (to_size_t (rb_max_elements rb * rb_element_size rb));
  slot_store st rbd
    {| rb_element_size := rb_element_size rb;
       rb_max_elements := rb_max_elements rb;
       rb_buf := Some b';
       rb_head := 0;
       rb_tail := 0 |}.

End RingBuffer.

(** ** Floating point: IEEE-754 binary32 ([float32_t]) and binary64 *)

Module Float.

Definition float32_t : Type := spec_float.
Definition double : Type := spec_float.

Definition f32_add : float32_t -> float32_t -> float32_t := SFadd 24 128.
Definition f32_sub : float32_t -> float32_t -> float32_t := SFsub 24 128.
Definition f32_mul : float32_t -> float32_t -> float32_t := SFmul 24 128.
Definition f32_div : float32_t -> float32_t -> float32_t := SFdiv 24 128.
Definition f32_neg : float32_t -> float32_t := SFopp.

Definition f64_mul : double -> double -> double := SFmul 53 1024.
Definition f64_div : double -> double -> double := SFdiv 53 1024.
Definition f64_abs : double -> double := SFabs.

(** Integer to floating conversion (round to nearest even). *)
Definition f32_of_Z (z : Z) : float32_t := binary_normalize 24 128 z 0 false.
Definition f64_of_Z (z : Z) : double := binary_normalize 53 1024 z 0 false.

(** The usual arithmetic conversion [float -> double] (exact) and the
    assignment conversion [double -> float] (rounding). *)
Definition f64_of_f32 (x : float32_t) : double :=
  match x with
  | S754_finite s m e => binary_round 53 1024 s m e
  | _ => x
  end.

Definition f32_of_f64 (x : double) : float32_t :=
  match x with
  | S754_finite s m e => binary_round 24 128 s m e
  | _ => x
  end.

(** The relational operators of C; every one of them is false on a NaN
    except [!=]. *)
Definition lt (x y : spec_float) : bool := SFltb x y.
Definition le (x y : spec_float) : bool := SFleb x y.
Definition gt (x y : spec_float) : bool := SFltb y x.
Definition ge (x y : spec_float) : bool := SFleb y x.
Definition ne (x y : spec_float) : bool := negb (SFeqb x y).

Definition is_nan (x : spec_float) : bool :=
  match x with S754_nan => true | _ => false end.

(** Integral part, towards zero; undefined for infinities and NaNs. *)
Definition trunc (x : spec_float) : option Z :=
  match x with
  | S754_zero _ => Some 0
  | S754_finite s m e =>
      let a := if 0 <=? e then Z.pos m * 2 ^ e else Z.pos m / 2 ^ (- e) in
      Some (if s then - a else a)
  | _ => None
  end.

(** [(uint16_t) x]: undefined when the integral part does not fit. *)
Definition to_uint16_t (x : float32_t) : option Z :=
  z ← trunc x;
  if (0 <=? z) && (z <=? 65535) then Some z else None.

(** Literals. *)
Definition f32_zero : float32_t := S754_zero false.
Definition f32_one : float32_t := f32_of_Z 1.
(** [0.99f] *)
Definition f32_0_99 : float32_t := S754_finite false 16609444 (-24).
(** [0.4f] *)
Definition f32_0_4 : float32_t := S754_finite false 13421773 (-25).
(** [0.5f] *)
Definition f32_0_5 : float32_t := S754_finite false 8388608 (-24).
(** [0.99] *)
Definition f64_0_99 : double := S754_finite false 8917127262193582 (-53).

(** [(uint32_t) x]: undefined when the integral part does not fit. *)
Definition to_uint32_t (x : float32_t) : option Z :=
  z ← trunc x;
  if (0 <=? z) && (z <? 2 ^ 32) then Some z else None.

(** The object representation of a [float32_t] on the little-endian target:
    the binary32 encoding (sign, biased exponent, fraction), a NaN as the
    default quiet NaN. *)
Definition f32_bits (x : float32_t) : Z :=
  match x with
  | S754_zero s => if s then 2 ^ 31 else 0
  | S754_infinity s => (if s then 2 ^ 31 else 0) + 255 * 2 ^ 23
  | S754_nan => 255 * 2 ^ 23 + 2 ^ 22
  | S754_finite s m e =>
      (if s then 2 ^ 31 else 0)
      + (if Z.pos (digits2_pos m) =? 24
         then (e + 150) * 2 ^ 23 + (Z.pos m - 2 ^ 23)
         else Z.pos m)
  end.

Definition f32_of_bits (b : Z) : float32_t :=
  let s := Z.testbit b 31 in
  let ex := (b / 2 ^ 23) mod 2 ^ 8 in
  let frac := b mod 2 ^ 23 in
  if ex =? 0 then
    match frac with
    | Z.pos m => S754_finite s m (-149)
    | _ => S754_zero s
    end
  else if ex =? 255 then
    if frac =? 0 then S754_infinity s else S754_nan
  else
    match frac + 2 ^ 23 with
    | Z.pos m => S754_finite s m (ex - 150)
    | _ => S754_nan
    end.

Definition byte_of_Z (z : Z) : byte :=
  default Byte.x00 (Byte.of_N (Z.to_N (z mod 2 ^ 8))).

Definition Z_of_byte (b : byte) : Z := Z.of_N (Byte.to_N b).

Definition f32_bytes (x : float32_t) : list byte :=
  let b := f32_bits x in
  [byte_of_Z b; byte_of_Z (b / 2 ^ 8); byte_of_Z (b / 2 ^ 16);
   byte_of_Z (b / 2 ^ 24)].

(** Reading a [float32_t] object back; it has four bytes. *)
Definition f32_of_bytes (l : list byte) : option float32_t :=
  match l with
  | [b0; b1; b2; b3] =>
      Some (f32_of_bits (Z_of_byte b0 + 2 ^ 8 * Z_of_byte b1
                         + 2 ^ 16 * Z_of_byte b2 + 2 ^ 24 * Z_of_byte b3))
  | _ => None
  end.

End Float.

Import Float.

(** ** fx_lib.c *)

Module FxLib.

Import RingBuffer.

(** A [float32_t*] is the name of the object it designates; [None] is
    [NULL]. *)
Definition pointer : Type := option string.

Definition is_null (p : pointer) : bool :=
  match p with None => true | Some _ => false end.

Definition MAX_DELAY_TIME : Z := 500.
Definition SAMPLES : Z := 128.
Definition PING_PONG_BUFFER_SIZE : Z := Z.shiftr SAMPLES 1.

(** [enum fx_designator] *)
Definition FXNONE : Z := 0.
Definition FXDELAY : Z := 1.
Definition FXOVERDRIVE : Z := 2.
Definition FXFUZZ : Z := 3.
Definition FXTREMOLO : Z := 4.
Definition FXRINGMOD : Z := 5.
Definition FXFILTER : Z := 6.

(** [delay_parameter] *)
Definition DELAY : Z := 0.
Definition FEEDBACK : Z := 1.
Definition BLEND : Z := 2.

(** [fuzz_parameter] *)
Definition GAIN : Z := 0.
Definition MIX : Z := 1.

(** [modulation_parameter] *)
Definition RATE : Z := 0.
Definition DEPTH : Z := 1.

(** [modulator_type] *)
Definition SINE : Z := 0.
Definition TRIANGLE : Z := 1.
Definition SQUARE : Z := 2.
Definition NO_CHANGE : Z := 3.

Definition Fs : Z := 48000.

Record delay_handle_t := mk_delay_handle {
  delay_ms : float32_t;
  delay_blend : float32_t;
  delay_feedback : float32_t;
  delay_is_running : bool;
  delay_level : float32_t;
  delay_src : pointer;
  delay_dst : pointer;
  delay_rb : pointer
}.

Record overdrive_handle_t := mk_overdrive_handle {
  od_threshold : float32_t;
  od_is_running : bool;
  od_src : pointer;
  od_dst : pointer
}.

Record fuzz_handle_t := mk_fuzz_handle {
  fuzz_gain : float32_t;
  fuzz_mix : float32_t;
  fuzz_is_running : bool;
  fuzz_src : pointer;
  fuzz_dst : pointer
}.

Record tremolo_handle_t := mk_tremolo_handle {
  trem_rate : float32_t;
  trem_depth : float32_t;
  trem_is_running : bool;
  trem_time : float32_t;
  trem_src : pointer;
  trem_dst : pointer
}.

Record ring_mod_handle_t := mk_ring_mod_handle {
  rm_rate : float32_t;
  rm_blend : float32_t;
  rm_type : Z;
  rm_is_running : bool;
  rm_src : pointer;
  rm_dst : pointer;
  rm_time : float32_t
}.

(** *** Delay *)

(** [delay_buffer]: [1 << 16] zero-initialised [float32_t]s, as bytes;
    [ARRAY_SIZE(delay_buffer)] and [sizeof(delay_buffer[0])]. *)
Definition delay_buffer_elements : Z := Z.shiftl 1 16.
Definition sizeof_float32_t : Z := 4.

Definition delay_buffer : list byte :=
  replicate (Z.to_nat (delay_buffer_elements * sizeof_float32_t)) Byte.x00.

(** The file-level state of fx_lib.c together with the state of the ring
    buffer module it drives. *)
Record fx_state := mk_fx_state {
  rbs : rb_state;
  _delay_rb : rb_handle_t;
  delay_rbd : Z
}.

Definition fx_initial : fx_state :=
  {| rbs := rb_initial;
     _delay_rb := {| element_size := 0; max_elements := 0; buffer := None |};
     delay_rbd := FXDELAY |}.

(** [static float32_t zero = 0.0f], as bytes. *)
Definition zero_sample : list byte :=
  replicate (Z.to_nat sizeof_float32_t) Byte.x00.

(** The loop that pre-fills the delay line; the return code of
    [ring_buffer_put] is not looked at. *)
Fixpoint delay_fill (n : nat) (s : rb_state) : option rb_state :=
  match n with
  | O => Some s
  | S k =>
      '(_, s') ← ring_buffer_put s FXDELAY zero_sample;
      delay_fill k s'
  end.

Definition delay_init (st : fx_state) (handle : delay_handle_t)
    (in_buffer out_buffer : pointer)
    (delay_ms_arg blend feedback : float32_t)
  : option (Z * fx_state * delay_handle_t) :=
  if is_null in_buffer || is_null out_buffer then Some (255, st, handle)
  else if le blend f32_zero || ge blend f32_one
          || le feedback f32_zero || ge feedback f32_0_99
          || gt delay_ms_arg (f32_of_Z MAX_DELAY_TIME)
  then Some (254, st, handle)
  else
    let attr := {| element_size := sizeof_float32_t;
                   max_elements := delay_buffer_elements;
                   buffer := Some delay_buffer |} in
    '(err, st1) ←
      (if delay_rbd st =? FXDELAY then
         '(e, rbd', s') ← ring_buffer_init (rbs st) (Some (delay_rbd st))
                             (Some attr);
         Some (to_int8 e,
               {| rbs := s'; _delay_rb := attr;
                  delay_rbd := default (delay_rbd st) rbd' |})
       else
         s' ← ring_buffer_clear (rbs st) FXDELAY;
         Some (0, {| rbs := s'; _delay_rb := attr;
                     delay_rbd := delay_rbd st |}));
    if negb (err =? 0) then Some (253, st1, handle)
    else
      let handle' :=
        {| delay_ms := delay_ms_arg;
           delay_blend := blend;
           delay_feedback := feedback;
           delay_is_running := delay_is_running handle;
           delay_level := delay_level handle;
           delay_src := in_buffer;
           delay_dst := out_buffer;
           delay_rb := Some "_delay_rb"%string |} in
      delay_in_samples ←
        to_uint16_t (f32_mul (delay_ms handle')
                             (f32_div (f32_of_Z Fs) (f32_of_Z 1000)));
      s' ← delay_fill (Z.to_nat delay_in_samples) (rbs st1);
      Some (0, {| rbs := s'; _delay_rb := _delay_rb st1;
                  delay_rbd := delay_rbd st1 |}, handle').

Definition set_delay_ms (h : delay_handle_t) (v : float32_t) :=
  {| delay_ms := v; delay_blend := delay_blend h;
     delay_feedback := delay_feedback h;
     delay_is_running := delay_is_running h; delay_level := delay_level h;
     delay_src := delay_src h; delay_dst := delay_dst h;
     delay_rb := delay_rb h |}.

Definition set_delay_feedback (h : delay_handle_t) (v : float32_t) :=
  {| delay_ms := delay_ms h; delay_blend := delay_blend h;
     delay_feedback := v;
     delay_is_running := delay_is_running h; delay_level := delay_level h;
     delay_src := delay_src h; delay_dst := delay_dst h;
     delay_rb := delay_rb h |}.

Definition set_delay_blend (h : delay_handle_t) (v : float32_t) :=
  {| delay_ms := delay_ms h; delay_blend := v;
     delay_feedback := delay_feedback h;
     delay_is_running := delay_is_running h; delay_level := delay_level h;
     delay_src := delay_src h; delay_dst := delay_dst h;
     delay_rb := delay_rb h |}.

(** The statements under [case BLEND:]. *)
Definition delay_update_BLEND (h : delay_handle_t) (value : float32_t)
  : Z * delay_handle_t :=
  if lt value f32_zero || gt value f32_one then (255, h)
  else (0, set_delay_blend h value).

(** [delay_update]: [case FEEDBACK:] has no [break] and runs on into
    [case BLEND:]. *)
Definition delay_update (h : delay_handle_t) (pm : Z) (value : float32_t)
  : Z * delay_handle_t :=
  if pm =? DELAY then
    if gt value (f32_of_Z MAX_DELAY_TIME) then (255, h)
    else (0, set_delay_ms h value)
  else if pm =? FEEDBACK then
    if lt value f32_zero || gt value f32_one then (255, h)
    else delay_update_BLEND (set_delay_feedback h value) value
  else if pm =? BLEND then delay_update_BLEND h value
  else (0, h).

(** *** Overdrive *)

Definition overdrive_update (h : overdrive_handle_t) (threshold : float32_t)
  : Z * overdrive_handle_t :=
  if le threshold f32_zero || gt threshold f32_0_4 then (255, h)
  else (0, {| od_threshold := threshold; od_is_running := od_is_running h;
              od_src := od_src h; od_dst := od_dst h |}).

(** *** Fuzz *)

Definition fuzz_update (h : fuzz_handle_t) (pm : Z) (value : float32_t)
  : Z * fuzz_handle_t :=
  if pm =? GAIN then
    if lt value f32_zero || gt value (f32_of_Z 18) then (255, h)
    else (0, {| fuzz_gain := value; fuzz_mix := fuzz_mix h;
                fuzz_is_running := fuzz_is_running h;
                fuzz_src := fuzz_src h; fuzz_dst := fuzz_dst h |})
  else if pm =? MIX then
    if lt value f32_zero || ge value f32_one then (255, h)
    else (0, {| fuzz_gain := fuzz_gain h; fuzz_mix := value;
                fuzz_is_running := fuzz_is_running h;
                fuzz_src := fuzz_src h; fuzz_dst := fuzz_dst h |})
  else (0, h).

Section RunFuzz.

(** [expf] of the C library. *)
Variable expf : float32_t -> float32_t.

(** [(1 << 24)] converted to [float32_t]. *)
Definition two_pow_24 : float32_t := f32_of_Z (Z.shiftl 1 24).

(** [-q / fabs(q) * (1 - expf(-q / fabs(q) * q))]: [fabs] is the
    [double] function, so the quotient and both products are computed
    in [double]; the argument of [expf] and the value stored in [z[i]]
    are rounded to [float32_t]. *)
Definition fuzz_shape (q : float32_t) : float32_t :=
  let sgn : double :=
    f64_div (f64_of_f32 (f32_neg q)) (f64_abs (f64_of_f32 q)) in
  let e : float32_t := expf (f32_of_f64 (f64_mul sgn (f64_of_f32 q))) in
  f32_of_f64 (f64_mul sgn (f64_of_f32 (f32_sub f32_one e))).

(** The first loop of [run_fuzz]: the saturated samples [z] and their
    running maximum [max_z]. *)
Fixpoint fuzz_saturate (gain : float32_t) (src : list float32_t)
    (max_z : float32_t) : list float32_t * float32_t :=
  match src with
  | [] => ([], max_z)
  | s :: rest =>
      let q := f32_div (f32_mul s gain) two_pow_24 in
      if ne q f32_zero then
        let z := fuzz_shape q in
        let max_z' := if gt z max_z then z else max_z in
        let '(zs, m) := fuzz_saturate gain rest max_z' in
        (z :: zs, m)
      else
        let '(zs, m) := fuzz_saturate gain rest max_z in
        (f32_zero :: zs, m)
  end.

(** The second loop: one output sample. *)
Definition fuzz_mix_sample (mix max_z z s : float32_t) : float32_t :=
  f32_add (f32_div (f32_mul (f32_mul mix z) two_pow_24) max_z)
          (f32_mul (f32_sub f32_one mix) s).

(** [run_fuzz]: [src] and [dst] are the sample blocks the handle's
    pointers designate; reading or writing fewer than
    [PING_PONG_BUFFER_SIZE] elements' worth of storage is undefined. *)
Definition run_fuzz (h : fuzz_handle_t) (src dst : list float32_t)
  : option (list float32_t) :=
  let n := Z.to_nat PING_PONG_BUFFER_SIZE in
  if (n <=? length src)%nat && (n <=? length dst)%nat then
    let '(z, max_z) := fuzz_saturate (fuzz_gain h) (take n src) f32_zero in
    Some (zip_with (fuzz_mix_sample (fuzz_mix h) max_z) z (take n src)
          ++ drop n dst)
  else None.

End RunFuzz.

(** *** Tremolo *)

Definition tremolo_update (h : tremolo_handle_t) (pm : Z) (value : float32_t)
  : Z * tremolo_handle_t :=
  if pm =? RATE then
    if lt value f32_zero || gt value f32_one then (255, h)
    else (0, {| trem_rate := value; trem_depth := trem_depth h;
                trem_is_running := trem_is_running h;
                trem_time := trem_time h;
                trem_src := trem_src h; trem_dst := trem_dst h |})
  else if pm =? DEPTH then
    if lt value f32_zero || gt value f32_one then (254, h)
    else (0, {| trem_rate := trem_rate h; trem_depth := value;
                trem_is_running := trem_is_running h;
                trem_time := trem_time h;
                trem_src := trem_src h; trem_dst := trem_dst h |})
  else (0, h).

(** *** Ring modulator *)

(** [ring_mod_init]: the first two tests read [rate >= 0] and
    [rate <= 1]; [blend > 0.99] compares in [double]. *)
Definition ring_mod_init (handle : ring_mod_handle_t)
    (in_buffer out_buffer : pointer) (rate blend : float32_t) (type : Z)
  : Z * ring_mod_handle_t :=
  if is_null in_buffer || is_null out_buffer then (255, handle)
  else if ge rate f32_zero || le rate f32_one
          || lt blend f32_zero || gt (f64_of_f32 blend) f64_0_99
  then (254, handle)
  else (0, {| rm_rate := rate; rm_blend := blend; rm_type := type;
              rm_is_running := rm_is_running handle;
              rm_src := in_buffer; rm_dst := out_buffer;
              rm_time := f32_zero |}).

Definition set_rm_type (h : ring_mod_handle_t) (type : Z) :=
  {| rm_rate := rm_rate h; rm_blend := rm_blend h; rm_type := type;
     rm_is_running := rm_is_running h;
     rm_src := rm_src h; rm_dst := rm_dst h; rm_time := rm_time h |}.

Definition ring_mod_update (h : ring_mod_handle_t) (pm type : Z)
    (value : float32_t) : Z * ring_mod_handle_t :=
  let after_switch (h1 : ring_mod_handle_t) :=
    if negb (type =? NO_CHANGE) then (0, set_rm_type h1 type) else (0, h1) in
  if pm =? RATE then
    if lt value f32_zero || gt value f32_one then (255, h)
    else after_switch
           {| rm_rate := value; rm_blend := rm_blend h; rm_type := rm_type h;
              rm_is_running := rm_is_running h;
              rm_src := rm_src h; rm_dst := rm_dst h; rm_time := rm_time h |}
  else if pm =? DEPTH then
    if lt value f32_zero || gt value f32_one then (254, h)
    else after_switch
           {| rm_rate := rm_rate h; rm_blend := value; rm_type := rm_type h;
              rm_is_running := rm_is_running h;
              rm_src := rm_src h; rm_dst := rm_dst h; rm_time := rm_time h |}
  else after_switch h.

(** *** The initialisation routines of the other effects *)

Definition overdrive_init (handle : overdrive_handle_t)
    (in_buffer out_buffer : pointer) (threshold : float32_t)
  : Z * overdrive_handle_t :=
  if is_null in_buffer || is_null out_buffer then (255, handle)
  else if le threshold f32_zero || gt threshold f32_0_4 then (254, handle)
  else (0, {| od_threshold := threshold;
              od_is_running := od_is_running handle;
              od_src := in_buffer; od_dst := out_buffer |}).

(** [fuzz_init]: the last assignment reads [handle->mix = gain]. *)
Definition fuzz_init (handle : fuzz_handle_t)
    (in_buffer out_buffer : pointer) (gain mix : float32_t)
  : Z * fuzz_handle_t :=
  if is_null in_buffer || is_null out_buffer then (255, handle)
  else if lt gain f32_zero || gt gain (f32_of_Z 18)
          || lt mix f32_zero || ge mix f32_one
  then (254, handle)
  else (0, {| fuzz_gain := gain; fuzz_mix := gain;
              fuzz_is_running := fuzz_is_running handle;
              fuzz_src := in_buffer; fuzz_dst := out_buffer |}).

Definition tremolo_init (handle : tremolo_handle_t)
    (in_buffer out_buffer : pointer) (rate depth : float32_t)
  : Z * tremolo_handle_t :=
  if is_null in_buffer || is_null out_buffer then (255, handle)
  else if lt rate f32_zero || gt rate f32_one
          || lt depth f32_zero || gt depth f32_one
  then (254, handle)
  else (0, {| trem_rate := rate; trem_depth := depth;
              trem_is_running := trem_is_running handle;
              trem_time := f32_zero;
              trem_src := in_buffer; trem_dst := out_buffer |}).

(** *** run_delay *)

(** One output sample of [run_delay]. *)
Definition delay_mix_sample (h : delay_handle_t) (x delayed : float32_t)
  : float32_t :=
  f32_add (f32_mul (f32_sub f32_one (delay_blend h)) x)
          (f32_mul (delay_blend h) delayed).

(** The loop of [run_delay] over the samples of the block: [current] goes
    to [ring_buffer_put], [delayed] starts as [0.0f] and is what
    [ring_buffer_get] leaves in it; both calls pass FXDELAY and their return
    codes are not looked at. *)
Fixpoint run_delay_loop (h : delay_handle_t) (src : list float32_t)
    (s : rb_state) : option (list float32_t * rb_state) :=
  match src with
  | [] => Some ([], s)
  | x :: rest =>
      let current := f32_mul x (delay_feedback h) in
      '(_, s1) ← ring_buffer_put s FXDELAY (f32_bytes current);
      '(_, data, s2) ← ring_buffer_get s1 FXDELAY (f32_bytes f32_zero);
      delayed ← f32_of_bytes data;
      '(ys, s3) ← run_delay_loop h rest s2;
      Some (delay_mix_sample h x delayed :: ys, s3)
  end.

(** [run_delay]: [src] and [dst] are the blocks the handle's pointers
    designate, as for [run_fuzz]. *)
Definition run_delay (st : fx_state) (h : delay_handle_t)
    (src dst : list float32_t) : option (list float32_t * fx_state) :=
  let n := Z.to_nat PING_PONG_BUFFER_SIZE in
  if (n <=? length src)%nat && (n <=? length dst)%nat then
    '(ys, s) ← run_delay_loop h (take n src) (rbs st);
    Some (ys ++ drop n dst,
          {| rbs := s; _delay_rb := _delay_rb st; delay_rbd := delay_rbd st |})
  else None.

End FxLib.

(** ** user_interface.c *)

Module UserInterface.

Import FxLib.

Definition MAX_ITEM_SIZE : Z := 16.
Definition MAX_ITEM_COUNT : Z := 7.
Definition SUBMENU_COUNT : Z := 7.

(** [enum menu_levels] *)
Definition MENU_PT : Z := 0.
Definition MENU_DELAY : Z := 1.
Definition MENU_OD : Z := 2.
Definition MENU_FUZZ : Z := 3.
Definition MENU_TREM : Z := 4.
Definition MENU_RM : Z := 5.

Record menu_t := mk_menu {
  cnt : Z;
  past_cnt : Z;
  menu_depth : Z;
  item_selected : Z;
  sub_menu_selected : Z;
  show_values : Z
}.

(** The initialisers of [menus]; the rest of the
    [SUBMENU_COUNT * MAX_ITEM_COUNT * MAX_ITEM_SIZE] characters are zero. *)
Definition menus : list (list string) :=
  [ [ "Pass-through"; "Delay"; "Overdrive"; "Fuzz"; "Tremolo";
      "Ring Modulator" ];
    [ "Start"; "BACK" ];
    [ "Start"; "Delay"; "Feedback"; "Blend"; "BACK" ];
    [ "Start"; "Threshold"; "BACK" ];
    [ "Start"; "Gain"; "Mix"; "BACK" ];
    [ "Start"; "Rate"; "Depth"; "BACK" ];
    [ "Start"; "Rate"; "Blend"; "Type"; "BACK" ] ]%string.

(** [menus[s][i]], read as a string; undefined outside the array. *)
Definition menus_entry (s i : Z) : option string :=
  if (0 <=? s) && (s <? SUBMENU_COUNT) && (0 <=? i) && (i <? MAX_ITEM_COUNT)
  then Some (default ""%string (default [] (menus !! Z.to_nat s) !! Z.to_nat i))
  else None.

(** [ARRAY_SIZE(menus[s][i])] and [ARRAY_SIZE(menus[s])]: [sizeof] does not
    evaluate its operand, the results are the array bounds. *)
Definition ARRAY_SIZE_menus_s_i : Z := MAX_ITEM_SIZE.
Definition ARRAY_SIZE_menus_s : Z := MAX_ITEM_COUNT.

(** Calls into the display driver, in program order. [lcd_send_string]
    takes a zero-terminated string. [lcd_send_unterminated s] is the call
    [lcd_send_string(val)] of the value display: [val] is a [char[3]] that
    holds the three digits [s] and no terminator, so the driver reads on
    behind the array until it meets a zero byte; what it reads there is not
    determined by the source and is not part of the event. *)
Inductive lcd_call :=
| lcd_clear
| lcd_put_cursor (row col : Z)
| lcd_send_string (s : string)
| lcd_send_unterminated (s : string).

(** [menu.item_selected = (change > 0) ? menu.item_selected++
    : menu.item_selected--;] stores to [item_selected] twice without a
    sequence point in between, which C leaves undefined. The model keeps
    the two values a translation that evaluates each operand once can leave
    in [item_selected]: with [AssignmentLast] the assignment stores the
    value of the conditional, the old item, after the increment or
    decrement, so the selection does not move; with [SideEffectLast] the
    store of the increment or decrement lands last. What is stated of the
    program is stated for both. *)
Inductive unsequenced := AssignmentLast | SideEffectLast.

(** The function-static [menu], the encoder counter register [TIM2->CNT],
    the display, and the effect handles of main.c that [confirm_value]
    updates. *)
Record ui_state := mk_ui_state {
  menu : menu_t;
  TIM2_CNT : Z;
  lcd : list lcd_call;
  delay_handle : delay_handle_t;
  overdrive_handle : overdrive_handle_t;
  fuzz_handle : fuzz_handle_t;
  tremolo_handle : tremolo_handle_t;
  ring_mod_handle : ring_mod_handle_t
}.

Definition set_menu (st : ui_state) (m : menu_t) : ui_state :=
  {| menu := m; TIM2_CNT := TIM2_CNT st; lcd := lcd st;
     delay_handle := delay_handle st;
     overdrive_handle := overdrive_handle st;
     fuzz_handle := fuzz_handle st;
     tremolo_handle := tremolo_handle st;
     ring_mod_handle := ring_mod_handle st |}.

Definition set_TIM2_CNT (st : ui_state) (v : Z) : ui_state :=
  {| menu := menu st; TIM2_CNT := v; lcd := lcd st;
     delay_handle := delay_handle st;
     overdrive_handle := overdrive_handle st;
     fuzz_handle := fuzz_handle st;
     tremolo_handle := tremolo_handle st;
     ring_mod_handle := ring_mod_handle st |}.

Definition emit (st : ui_state) (c : lcd_call) : ui_state :=
  {| menu := menu st; TIM2_CNT := TIM2_CNT st; lcd := lcd st ++ [c];
     delay_handle := delay_handle st;
     overdrive_handle := overdrive_handle st;
     fuzz_handle := fuzz_handle st;
     tremolo_handle := tremolo_handle st;
     ring_mod_handle := ring_mod_handle st |}.

(** [(float32_t)menu->cnt / 100.0f] *)
Definition cnt_fraction (m : menu_t) : float32_t :=
  f32_div (f32_of_Z (cnt m)) (f32_of_Z 100).

(** [confirm_value]: the return codes of the update functions are
    dropped. *)
Definition confirm_value (st : ui_state) : ui_state :=
  let m := menu st in
  let with_delay h :=
    {| menu := menu st; TIM2_CNT := TIM2_CNT st; lcd := lcd st;
       delay_handle := h; overdrive_handle := overdrive_handle st;
       fuzz_handle := fuzz_handle st; tremolo_handle := tremolo_handle st;
       ring_mod_handle := ring_mod_handle st |} in
  let with_overdrive h :=
    {| menu := menu st; TIM2_CNT := TIM2_CNT st; lcd := lcd st;
       delay_handle := delay_handle st; overdrive_handle := h;
       fuzz_handle := fuzz_handle st; tremolo_handle := tremolo_handle st;
       ring_mod_handle := ring_mod_handle st |} in
  let with_fuzz h :=
    {| menu := menu st; TIM2_CNT := TIM2_CNT st; lcd := lcd st;
       delay_handle := delay_handle st;
       overdrive_handle := overdrive_handle st;
       fuzz_handle := h; tremolo_handle := tremolo_handle st;
       ring_mod_handle := ring_mod_handle st |} in
  let with_tremolo h :=
    {| menu := menu st; TIM2_CNT := TIM2_CNT st; lcd := lcd st;
       delay_handle := delay_handle st;
       overdrive_handle := overdrive_handle st;
       fuzz_handle := fuzz_handle st; tremolo_handle := h;
       ring_mod_handle := ring_mod_handle st |} in
  let with_ring_mod h :=
    {| menu := menu st; TIM2_CNT := TIM2_CNT st; lcd := lcd st;
       delay_handle := delay_handle st;
       overdrive_handle := overdrive_handle st;
       fuzz_handle := fuzz_handle st; tremolo_handle := tremolo_handle st;
       ring_mod_handle := h |} in
  if sub_menu_selected m =? MENU_DELAY then
    if item_selected m =? 1 then
      with_delay (snd (delay_update (delay_handle st) DELAY
                         (f32_mul (f32_of_Z MAX_DELAY_TIME) (cnt_fraction m))))
    else
      with_delay (snd (delay_update (delay_handle st) (item_selected m - 1)
                         (cnt_fraction m)))
  else if sub_menu_selected m =? MENU_OD then
    with_overdrive (snd (overdrive_update (overdrive_handle st)
                           (f32_mul f32_0_4 (cnt_fraction m))))
  else if sub_menu_selected m =? MENU_FUZZ then
    if item_selected m =? 1 then
      with_fuzz (snd (fuzz_update (fuzz_handle st) GAIN
                        (f32_mul (f32_of_Z 18) (cnt_fraction m))))
    else
      with_fuzz (snd (fuzz_update (fuzz_handle st) MIX (cnt_fraction m)))
  else if sub_menu_selected m =? MENU_TREM then
    with_tremolo (snd (tremolo_update (tremolo_handle st)
                         (item_selected m - 1) (cnt_fraction m)))
  else if sub_menu_selected m =? MENU_RM then
    if negb (item_selected m =? 3) then
      with_ring_mod (snd (ring_mod_update (ring_mod_handle st)
                            (item_selected m - 1) NO_CHANGE (cnt_fraction m)))
    else if cnt m <? 33 then
      with_ring_mod (snd (ring_mod_update (ring_mod_handle st)
                            (item_selected m - 1) SINE (f32_of_Z 255)))
    else if cnt m <? 66 then
      with_ring_mod (snd (ring_mod_update (ring_mod_handle st)
                            (item_selected m - 1) TRIANGLE (f32_of_Z 255)))
    else
      with_ring_mod (snd (ring_mod_update (ring_mod_handle st)
                            (item_selected m - 1) SQUARE (f32_of_Z 255)))
  else st.

(** The [switch (menu.menu_depth)] of a button press; [mode] is the
    pointee of the [mode] argument. *)
Definition on_button (mode : Z) (st : ui_state) : Z * ui_state :=
  let m := menu st in
  if menu_depth m =? 0 then
    (mode,
     set_menu st {| cnt := cnt m; past_cnt := past_cnt m;
                    menu_depth := to_uint8 (menu_depth m + 1);
                    item_selected := item_selected m;
                    sub_menu_selected := item_selected m;
                    show_values := show_values m |})
  else if menu_depth m =? 1 then
    let size := to_uint8 ARRAY_SIZE_menus_s_i in
    if item_selected m =? size - 1 then
      (mode,
       set_TIM2_CNT
         (set_menu st {| cnt := cnt m; past_cnt := past_cnt m;
                         menu_depth := to_uint8 (menu_depth m - 1);
                         item_selected := 0;
                         sub_menu_selected := sub_menu_selected m;
                         show_values := show_values m |})
         0)
    else if item_selected m =? 0 then
      (sub_menu_selected m, st)
    else
      (mode,
       set_TIM2_CNT
         (set_menu st {| cnt := cnt m; past_cnt := past_cnt m;
                         menu_depth := to_uint8 (menu_depth m + 1);
                         item_selected := item_selected m;
                         sub_menu_selected := sub_menu_selected m;
                         show_values := 1 |})
         50)
  else if menu_depth m =? 2 then
    let st1 := confirm_value st in
    let m1 := menu st1 in
    (mode,
     set_menu st1 {| cnt := cnt m1; past_cnt := past_cnt m1;
                     menu_depth := menu_depth m1;
                     item_selected := item_selected m1;
                     sub_menu_selected := sub_menu_selected m1;
                     show_values := 0 |})
  else
    (mode,
     set_menu st {| cnt := cnt m; past_cnt := past_cnt m;
                    menu_depth := to_uint8 (menu_depth m - 1);
                    item_selected := item_selected m;
                    sub_menu_selected := sub_menu_selected m;
                    show_values := show_values m |}).

(** The three decimal digits of [(uint8_t) menu.cnt] that are written to
    [val]. *)
Definition digit (d : Z) : Ascii.ascii :=
  Ascii.ascii_of_nat (Z.to_nat (d mod 10 + 48)).

Definition counter_digits (c : Z) : string :=
  let temp := to_uint8 c in
  String (digit (temp / 100))
    (String (digit (temp / 10)) (String (digit temp) EmptyString)).

(** The encoder part of [display_menu]. The result is [None] when [menus]
    is read outside its bounds. *)
Definition on_rotation (u : unsequenced) (st : ui_state) : option ui_state :=
  let m := menu st in
  if negb (cnt m =? past_cnt m) then
    st1 ←
      (if show_values m =? 0 then
         let change := to_int16 (cnt m - past_cnt m) in
         let stepped :=
           if 0 <? change then to_uint8 (item_selected m + 1)
           else to_uint8 (item_selected m - 1) in
         let item :=
           match u with
           | AssignmentLast => item_selected m
           | SideEffectLast => stepped
           end in
         Some (set_menu st
                 {| cnt := cnt m; past_cnt := past_cnt m;
                    menu_depth := menu_depth m;
                    item_selected := item mod ARRAY_SIZE_menus_s;
                    sub_menu_selected := sub_menu_selected m;
                    show_values := show_values m |})
       else
         Some (emit (emit (emit st (lcd_put_cursor 1 0))
                          (lcd_send_unterminated (counter_digits (cnt m))))
                    (lcd_put_cursor 0 0)));
    c ← menus_entry (sub_menu_selected (menu st1)) (item_selected (menu st1));
    Some (emit st1 (lcd_send_string c))
  else Some st.

(** [display_menu]. *)
Definition display_menu (u : unsequenced) (btn_pressed : Z) (mode : Z)
    (st : ui_state) : option (Z * ui_state) :=
  let st0 := emit st lcd_clear in
  let m := menu st0 in
  let st1 := set_menu st0
               {| cnt := to_uint16 (TIM2_CNT st0); past_cnt := past_cnt m;
                  menu_depth := menu_depth m;
                  item_selected := item_selected m;
                  sub_menu_selected := sub_menu_selected m;
                  show_values := show_values m |} in
  let '(mode', st2) :=
    if negb (btn_pressed =? 0) then on_button mode st1 else (mode, st1) in
  st3 ← on_rotation u st2;
  let m3 := menu st3 in
  Some (mode',
        set_menu st3 {| cnt := cnt m3; past_cnt := cnt m3;
                        menu_depth := menu_depth m3;
                        item_selected := item_selected m3;
                        sub_menu_selected := sub_menu_selected m3;
                        show_values := show_values m3 |}).

Definition menu_zero : menu_t :=
  {| cnt := 0; past_cnt := 0; menu_depth := 0; item_selected := 0;
     sub_menu_selected := 0; show_values := 0 |}.

End UserInterface.

(** ** main.c: the control loop and the transfer callbacks *)

Module Main.

(** [enum callback_state] *)
Definition NONE : Z := 0.
Definition HALFCPLT : Z := 1.
Definition CPLT : Z := 2.

(** [enum ping_pong] *)
Inductive ping_pong := PING | PONG.

(** Where the control loop stands: at the [switch], inside one of the two
    processing cases (after the [switch] has read the flag and before the
    case stores [NONE]), or in the endless loop of [Error_Handler]. *)
Inductive location := AtSwitch | InCase (p : ping_pong) | InErrorHandler.

(** Calls made by the control loop, in program order. *)
Inductive call :=
| call_display_menu
| call_rx_samples (p : ping_pong)
| call_run_fx
| call_tx_samples (p : ping_pong)
| call_Error_Handler.

Record sched := mk_sched {
  callback_state : Z;
  pc : location;
  calls : list call
}.

Definition sched_initial : sched :=
  {| callback_state := NONE; pc := AtSwitch; calls := [] |}.

(** The interrupt callbacks; [Error_Handler] disables interrupts before it
    loops, so no callback runs after it. *)
Definition HAL_I2SEx_TxRxHalfCpltCallback (s : sched) : sched :=
  match pc s with
  | InErrorHandler => s
  | _ => {| callback_state := HALFCPLT; pc := pc s; calls := calls s |}
  end.

Definition HAL_I2SEx_TxRxCpltCallback (s : sched) : sched :=
  match pc s with
  | InErrorHandler => s
  | _ => {| callback_state := CPLT; pc := pc s; calls := calls s |}
  end.

(** One step of the [while (1)] loop of [main]: at the [switch] the flag
    is read and the case entered; the second step of a processing case is
    its [callback_state = NONE]. *)
Definition main_step (s : sched) : sched :=
  match pc s with
  | AtSwitch =>
      if callback_state s =? NONE then
        {| callback_state := callback_state s; pc := AtSwitch;
           calls := calls s ++ [call_display_menu] |}
      else if callback_state s =? HALFCPLT then
        {| callback_state := callback_state s; pc := InCase PING;
           calls := calls s ++ [call_rx_samples PING; call_run_fx;
                                call_tx_samples PING] |}
      else if callback_state s =? CPLT then
        {| callback_state := callback_state s; pc := InCase PONG;
           calls := calls s ++ [call_rx_samples PONG; call_run_fx;
                                call_tx_samples PONG] |}
      else
        {| callback_state := callback_state s; pc := InErrorHandler;
           calls := calls s ++ [call_Error_Handler] |}
  | InCase _ =>
      {| callback_state := NONE; pc := AtSwitch; calls := calls s |}
  | InErrorHandler => s
  end.

(** What can happen next: a transfer notification or a step of the
    control loop. *)
Inductive event := HalfComplete | Complete | LoopStep.

Definition step (s : sched) (e : event) : sched :=
  match e with
  | HalfComplete => HAL_I2SEx_TxRxHalfCpltCallback s
  | Complete => HAL_I2SEx_TxRxCpltCallback s
  | LoopStep => main_step s
  end.

Definition run (es : list event) (s : sched) : sched :=
  fold_left step es s.

(** The fatal state an overrun would have to be reported in. *)
Definition overrun_reported (s : sched) : Prop := pc s = InErrorHandler.

(** *** Sample transport: rx_samples, pass_through, tx_samples *)

Definition DMA_BUFFER_SIZE : Z := Z.shiftl FxLib.SAMPLES 1.

(** The DMA buffers (32-bit words) and the mono working blocks. *)
Record buffers := mk_buffers {
  rx_buffer : list Z;
  tx_buffer : list Z;
  left_in : list float32_t;
  left_out : list float32_t
}.

Definition ping_pong_value (p : ping_pong) : Z :=
  match p with PING => 0 | PONG => 1 end.

(** [a[i]] as an rvalue and [a[i] = x]; undefined outside the array. *)
Definition array_load {A : Type} (a : list A) (i : Z) : option A :=
  if 0 <=? i then a !! Z.to_nat i else None.

Definition array_store {A : Type} (a : list A) (i : Z) (x : A)
  : option (list A) :=
  if (0 <=? i) && (i <? Z.of_nat (length a))
  then Some (<[Z.to_nat i := x]> a) else None.

(** Number of passes of [for (j = offset; j < end; j = j + 2)]. *)
Definition stride2_count (offset end_ : Z) : nat :=
  Z.to_nat ((end_ - offset + 1) / 2).

(** The loop of [rx_samples]: [n] passes from [i], [j]. *)
Fixpoint rx_loop (n : nat) (i j : Z) (rx : list Z) (li : list float32_t)
  : option (list float32_t) :=
  match n with
  | O => Some li
  | S k =>
      x ← array_load rx j;
      li' ← array_store li i (f32_of_Z x);
      rx_loop k (i + 1) (j + 2) rx li'
  end.

Definition rx_samples (p : ping_pong) (m : buffers) : option buffers :=
  let offset := to_uint16 (ping_pong_value p * FxLib.SAMPLES) in
  let end_ := to_uint16 (FxLib.SAMPLES + offset) in
  li ← rx_loop (stride2_count offset end_) 0 offset (rx_buffer m) (left_in m);
  Some {| rx_buffer := rx_buffer m; tx_buffer := tx_buffer m;
          left_in := li; left_out := left_out m |}.

(** The loop of [tx_samples]; [(uint32_t) left_out[i]] is undefined when
    the value does not fit. *)
Fixpoint tx_loop (n : nat) (i j : Z) (lo : list float32_t) (tx : list Z)
  : option (list Z) :=
  match n with
  | O => Some tx
  | S k =>
      y ← array_load lo i;
      v ← to_uint32_t y;
      tx' ← array_store tx j v;
      tx_loop k (i + 1) (j + 2) lo tx'
  end.

Definition tx_samples (p : ping_pong) (m : buffers) : option buffers :=
  let offset := to_uint16 (ping_pong_value p * FxLib.SAMPLES) in
  let end_ := to_uint16 (FxLib.SAMPLES + offset) in
  tx ← tx_loop (stride2_count offset end_) 0 offset (left_out m) (tx_buffer m);
  Some {| rx_buffer := rx_buffer m; tx_buffer := tx;
          left_in := left_in m; left_out := left_out m |}.

(** The loop of [pass_through]. *)
Fixpoint pass_through_loop (n : nat) (i : Z) (li lo : list float32_t)
  : option (list float32_t) :=
  match n with
  | O => Some lo
  | S k =>
      x ← array_load li i;
      lo' ← array_store lo i x;
      pass_through_loop k (i + 1) li lo'
  end.

Definition pass_through (m : buffers) : option buffers :=
  let size := to_uint16 (Z.shiftr DMA_BUFFER_SIZE 2) in
  lo ← pass_through_loop (Z.to_nat size) 0 (left_in m) (left_out m);
  Some {| rx_buffer := rx_buffer m; tx_buffer := tx_buffer m;
          left_in := left_in m; left_out := lo |}.

End Main.

(** * Specifications *)

Import RingBuffer FxLib UserInterface Main.

(** ** Ring buffer: invariant, abstract contents, call sequences *)

(** [count = head - tail], in [size_t]. *)
Definition rb_count (rb : ring_buffer) : Z :=
  to_size_t (rb_head rb - rb_tail rb).

(** An initialised ring buffer: the attributes passed the checks of
    [ring_buffer_init], the storage is the [max_elements * element_size]
    bytes the caller supplied, and the counters are at most a capacity
    apart. *)
Record rb_wf (rb : ring_buffer) : Prop := mk_rb_wf {
  wf_element_size : 0 < rb_element_size rb;
  wf_max_elements : 0 <= rb_max_elements rb < 2 ^ 32;
  wf_pow2 : pow2_check (rb_max_elements rb) = true;
  wf_storage : exists b, rb_buf rb = Some b /\
      Z.of_nat (length b) = rb_max_elements rb * rb_element_size rb;
  wf_addressable : rb_max_elements rb * rb_element_size rb < 2 ^ 32;
  wf_head : 0 <= rb_head rb < 2 ^ 32;
  wf_tail : 0 <= rb_tail rb < 2 ^ 32;
  wf_count : rb_count rb <= rb_max_elements rb
}.

(** The [e] bytes of slot [i] of a storage region, and the region after
    slot [i] has been overwritten with the first [e] bytes of [d]. *)
Definition slot_read (e i : nat) (b : list byte) : list byte :=
  take e (drop (i * e) b).

Definition slot_write (e i : nat) (d b : list byte) : list byte :=
  take (i * e) b ++ take e d ++ drop (i * e + e) b.

(** The queue an initialised ring buffer holds: the slots designated by
    [tail], [tail + 1], ..., [head - 1], oldest first. *)
Definition rb_contents (rb : ring_buffer) : list (list byte) :=
  match rb_buf rb with
  | Some b =>
      map (fun j : nat =>
             slot_read (Z.to_nat (rb_element_size rb))
               (Z.to_nat ((rb_tail rb + Z.of_nat j) mod rb_max_elements rb)) b)
          (seq 0 (Z.to_nat (rb_count rb)))
  | None => []
  end.

(** The buffer after a successful [ring_buffer_put] and after a successful
    [ring_buffer_get], the element the next [ring_buffer_get] delivers, and
    the module state with slot 0 replaced. *)
Definition rb_after_put (rb : ring_buffer) (data : list byte) : ring_buffer :=
  {| rb_element_size := rb_element_size rb;
     rb_max_elements := rb_max_elements rb;
     rb_buf := b ← rb_buf rb;
               Some (slot_write (Z.to_nat (rb_element_size rb))
                       (Z.to_nat (rb_head rb mod rb_max_elements rb)) data b);
     rb_head := to_size_t (rb_head rb + 1);
     rb_tail := rb_tail rb |}.

Definition rb_after_get (rb : ring_buffer) : ring_buffer :=
  {| rb_element_size := rb_element_size rb;
     rb_max_elements := rb_max_elements rb;
     rb_buf := rb_buf rb;
     rb_head := rb_head rb;
     rb_tail := to_size_t (rb_tail rb + 1) |}.

Definition rb_oldest (rb : ring_buffer) : list byte :=
  match rb_buf rb with
  | Some b => slot_read (Z.to_nat (rb_element_size rb))
                (Z.to_nat (rb_tail rb mod rb_max_elements rb)) b
  | None => []
  end.

Definition with_slot (st : rb_state) (rb : ring_buffer) : rb_state :=
  {| index := index st; _rb := <[0%nat := rb]> (_rb st) |}.

(** A sequence of [ring_buffer_put] calls, one per element, and a sequence
    of [ring_buffer_get] calls, one per destination object; the results are
    the return codes (and the destination contents) in call order. *)
Fixpoint put_all (st : rb_state) (rbd : Z) (ds : list (list byte))
  : option (list Z * rb_state) :=
  match ds with
  | [] => Some ([], st)
  | d :: ds' =>
      '(r, st1) ← ring_buffer_put st rbd d;
      '(rs, st2) ← put_all st1 rbd ds';
      Some (r :: rs, st2)
  end.

Fixpoint get_all (st : rb_state) (rbd : Z) (outs : list (list byte))
  : option (list (Z * list byte) * rb_state) :=
  match outs with
  | [] => Some ([], st)
  | o :: outs' =>
      '(r, o', st1) ← ring_buffer_get st rbd o;
      '(rs, st2) ← get_all st1 rbd outs';
      Some ((r, o') :: rs, st2)
  end.

(** Calls of the ring buffer interface, and the module state after a
    sequence of them. *)
Inductive rb_call :=
| rb_call_init (rbd : option Z) (attr : option rb_handle_t)
| rb_call_put (rbd : Z) (data : list byte)
| rb_call_get (rbd : Z) (data : list byte)
| rb_call_count (rbd : Z)
| rb_call_clear (rbd : Z).

Definition rb_exec (st : rb_state) (c : rb_call) : option rb_state :=
  match c with
  | rb_call_init rbd attr =>
      '(_, _, st') ← ring_buffer_init st rbd attr; Some st'
  | rb_call_put rbd data =>
      '(_, st') ← ring_buffer_put st rbd data; Some st'
  | rb_call_get rbd data =>
      '(_, _, st') ← ring_buffer_get st rbd data; Some st'
  | rb_call_count rbd =>
      _ ← ring_buffer_count st rbd; Some st
  | rb_call_clear rbd => ring_buffer_clear st rbd
  end.

Fixpoint rb_run (cs : list rb_call) (st : rb_state) : option rb_state :=
  match cs with
  | [] => Some st
  | c :: cs' => st' ← rb_exec st c; rb_run cs' st'
  end.

(** Sample values: a buffer of four two-byte elements whose counters are
    one step from overflowing, the module state that holds it, elements to
    queue and destinations to read them into; the attributes and the module
    state of a first successful initialisation. *)
Definition sample_rb : ring_buffer :=
  {| rb_element_size := 2; rb_max_elements := 4;
     rb_buf := Some (replicate 8 Byte.x00);
     rb_head := 4294967295; rb_tail := 4294967295 |}.

Definition sample_state : rb_state := {| index := 1; _rb := [sample_rb] |}.

Definition sample_elements : list (list byte) :=
  [ [Byte.x01; Byte.x02]; [Byte.x03; Byte.x04]; [Byte.x05; Byte.x06] ].

Definition sample_outs : list (list byte) :=
  replicate 3 [Byte.x00; Byte.x00].

Definition sample_attr : rb_handle_t :=
  {| element_size := 2; max_elements := 4;
     buffer := Some (replicate 8 Byte.x00) |}.

Definition sample_state_fresh : rb_state :=
  {| index := 1;
     _rb := [ {| rb_element_size := 2; rb_max_elements := 4;
                 rb_buf := Some (replicate 8 Byte.x00);
                 rb_head := 0; rb_tail := 0 |} ] |}.

(** A capacity that is a power of two. *)
Definition power_of_two (n : Z) : Prop := exists k, 0 <= k /\ n = 2 ^ k.

(** ** Effects: sample values used in the statements *)

Definition delay_handle_zero : delay_handle_t :=
  {| delay_ms := f32_zero; delay_blend := f32_zero;
     delay_feedback := f32_zero; delay_is_running := false;
     delay_level := f32_zero; delay_src := None; delay_dst := None;
     delay_rb := None |}.

(** The delay handle after [delay_init(&delay_handle, left_in, left_out,
    400, 0.4, 0.4)] of main.c. *)
Definition delay_handle_main : delay_handle_t :=
  {| delay_ms := f32_of_Z 400; delay_blend := f32_0_4;
     delay_feedback := f32_0_4; delay_is_running := false;
     delay_level := f32_zero; delay_src := Some "left_in"%string;
     delay_dst := Some "left_out"%string;
     delay_rb := Some "_delay_rb"%string |}.

Definition ring_mod_handle_zero : ring_mod_handle_t :=
  {| rm_rate := f32_zero; rm_blend := f32_zero; rm_type := 0;
     rm_is_running := false; rm_src := None; rm_dst := None;
     rm_time := f32_zero |}.

Definition fuzz_handle_zero : fuzz_handle_t :=
  {| fuzz_gain := f32_zero; fuzz_mix := f32_zero; fuzz_is_running := false;
     fuzz_src := None; fuzz_dst := None |}.

(** [0.995f], a feedback inside (0,1). *)
Definition f32_0_995 : float32_t := S754_finite false 16693330 (-24).

(** A block of silence. *)
Definition silence : list float32_t :=
  replicate (Z.to_nat PING_PONG_BUFFER_SIZE) f32_zero.

(** The documented parameter ranges of [delay_init] as the code tests
    them. *)
Definition delay_params_accepted (d b f : float32_t) : Prop :=
  lt f32_zero b = true /\ lt b f32_one = true /\
  lt f32_zero f = true /\ lt f f32_0_99 = true /\
  le d (f32_of_Z MAX_DELAY_TIME) = true.

(** ** Menu: initial state *)

Definition ui_initial : ui_state :=
  {| menu := menu_zero; TIM2_CNT := 0; lcd := [];
     delay_handle := delay_handle_zero;
     overdrive_handle :=
       {| od_threshold := f32_zero; od_is_running := false;
          od_src := None; od_dst := None |};
     fuzz_handle := fuzz_handle_zero;
     tremolo_handle :=
       {| trem_rate := f32_zero; trem_depth := f32_zero;
          trem_is_running := false; trem_time := f32_zero;
          trem_src := None; trem_dst := None |};
     ring_mod_handle := ring_mod_handle_zero |}.

(** The encoder turns the counter register to [v] between two calls of
    [display_menu]. *)
Definition turn_encoder (v : Z) (st : ui_state) : ui_state :=
  set_TIM2_CNT st v.

(** [display_menu] called once per entry of [inputs]: the counter value the
    encoder has reached and the button flag. *)
Fixpoint menu_run (u : unsequenced) (inputs : list (Z * Z)) (mode : Z)
    (st : ui_state) : option (Z * ui_state) :=
  match inputs with
  | [] => Some (mode, st)
  | (v, btn) :: rest =>
      '(mode', st') ← display_menu u btn mode (turn_encoder v st);
      menu_run u rest mode' st'
  end.

(** ** Ring buffer as a bounded queue *)

(** The two operations on the queue in slot 0, with the object the caller's
    pointer designates. *)
Inductive queue_call :=
| queue_put (d : list byte)
| queue_get (out : list byte).

Definition queue_call_data (c : queue_call) : list byte :=
  match c with queue_put d => d | queue_get out => out end.

(** What a FIFO queue bounded by [cap] elements of [e] bytes answers: the
    return code and the caller's object after the call, and the queue after
    it. *)
Definition queue_step (cap : Z) (e : nat) (q : list (list byte))
    (c : queue_call) : Z * list byte * list (list byte) :=
  match c with
  | queue_put d =>
      if Z.of_nat (length q) <? cap then (SUCCESS, d, q ++ [take e d])
      else (FAILURE, d, q)
  | queue_get out =>
      match q with
      | [] => (FAILURE, out, q)
      | x :: q' => (SUCCESS, x ++ drop e out, q')
      end
  end.

Fixpoint queue_run (cap : Z) (e : nat) (q : list (list byte))
    (cs : list queue_call) : list (Z * list byte) * list (list byte) :=
  match cs with
  | [] => ([], q)
  | c :: cs' =>
      let '(r, d, q1) := queue_step cap e q c in
      let '(rs, q2) := queue_run cap e q1 cs' in
      ((r, d) :: rs, q2)
  end.

(** The same calls made on the ring buffer module. *)
Definition rb_step (st : rb_state) (c : queue_call)
  : option (Z * list byte * rb_state) :=
  match c with
  | queue_put d => '(r, st') ← ring_buffer_put st 0 d; Some (r, d, st')
  | queue_get out => ring_buffer_get st 0 out
  end.

Fixpoint rb_steps (st : rb_state) (cs : list queue_call)
  : option (list (Z * list byte) * rb_state) :=
  match cs with
  | [] => Some ([], st)
  | c :: cs' =>
      '(r, d, st1) ← rb_step st c;
      '(rs, st2) ← rb_steps st1 cs';
      Some ((r, d) :: rs, st2)
  end.

(** The module after a successful initialisation: the slot counter is used
    up and the one slot of the table holds an initialised buffer. *)
Definition rb_table_ok (st : rb_state) : Prop :=
  RING_BUFFER_MAX <= index st /\ exists rb, _rb st = [rb] /\ rb_wf rb.

(** The buffer after [ring_buffer_clear]. *)
Definition rb_after_clear (rb : ring_buffer) : ring_buffer :=
  {| rb_element_size := rb_element_size rb;
     rb_max_elements := rb_max_elements rb;
     rb_buf := Some (replicate
                       (Z.to_nat (rb_max_elements rb * rb_element_size rb))
                       Byte.x00);
     rb_head := 0; rb_tail := 0 |}.

Definition sample_calls : list queue_call :=
  [ queue_put [Byte.x01; Byte.x02]; queue_get [Byte.x00; Byte.x00];
    queue_get [Byte.x00; Byte.x00]; queue_put [Byte.x03; Byte.x04];
    queue_put [Byte.x05; Byte.x06]; queue_put [Byte.x07; Byte.x08];
    queue_put [Byte.x09; Byte.x0a]; queue_put [Byte.x0b; Byte.x0c];
    queue_get [Byte.x00; Byte.x00] ].

(** ** Further sample values and parameter ranges *)

(** A buffer of four two-byte elements that holds two of them. *)
Definition sample_rb_used : ring_buffer :=
  {| rb_element_size := 2; rb_max_elements := 4;
     rb_buf := Some [Byte.x01; Byte.x02; Byte.x03; Byte.x04;
                     Byte.x00; Byte.x00; Byte.x00; Byte.x00];
     rb_head := 2; rb_tail := 0 |}.

Definition sample_state_used : rb_state :=
  {| index := 1; _rb := [sample_rb_used] |}.

(** Interface calls with valid and invalid designators. *)
Definition sample_rb_calls : list rb_call :=
  [ rb_call_put 0 [Byte.x01; Byte.x02]; rb_call_init (Some 0) (Some sample_attr);
    rb_call_put 1 [Byte.x03; Byte.x04]; rb_call_count 0;
    rb_call_get 0 [Byte.x00; Byte.x00]; rb_call_clear 0;
    rb_call_get 0 [Byte.x00; Byte.x00] ].

(** The module state of fx_lib.c after the [delay_init] call of [main]. *)
Definition fx_after_init : fx_state :=
  {| rbs := {| index := 1;
               _rb := [ {| rb_element_size := sizeof_float32_t;
                           rb_max_elements := delay_buffer_elements;
                           rb_buf := Some delay_buffer;
                           rb_head := 0; rb_tail := 0 |} ] |};
     _delay_rb := {| element_size := sizeof_float32_t;
                     max_elements := delay_buffer_elements;
                     buffer := Some delay_buffer |};
     delay_rbd := 0 |}.

(** The thresholds [overdrive_init] and [overdrive_update] take, and the
    rate and depth [tremolo_init] takes. *)
Definition overdrive_accepts (t : float32_t) : Prop :=
  lt f32_zero t = true /\ le t f32_0_4 = true.

Definition tremolo_accepts (rate depth : float32_t) : Prop :=
  le f32_zero rate = true /\ le rate f32_one = true /\
  le f32_zero depth = true /\ le depth f32_one = true.

(** ** Menu: invariant, mode, counter scaling *)

(** The selection stays inside [menus] and the depth is one of the three
    levels of the state machine. *)
Definition menu_inv (m : menu_t) : Prop :=
  0 <= item_selected m < MAX_ITEM_COUNT /\
  0 <= sub_menu_selected m < SUBMENU_COUNT /\
  (menu_depth m = 0 \/ menu_depth m = 1 \/ menu_depth m = 2).

(** The mode after a call of [display_menu] that started with menu [m]. *)
Definition mode_after (btn mode : Z) (m : menu_t) : Z :=
  if negb (btn =? 0) && (menu_depth m =? 1) && (item_selected m =? 0)
  then sub_menu_selected m else mode.

(** [(float32_t)c / 100.0f] for a counter value [c]. *)
Definition counter_fraction (c : Z) : float32_t :=
  f32_div (f32_of_Z c) (f32_of_Z 100).

(** The menu state [m] in the initial user interface state. *)
Definition ui_with_menu (m : menu_t) : ui_state := set_menu ui_initial m.

(** ** Sample transport *)

(** The first word of the half of the DMA buffers that belongs to [p]. *)
Definition block_offset (p : ping_pong) : Z := ping_pong_value p * SAMPLES.

(** [rx_samples(p); run_fx(mode); tx_samples(p);] of the control loop of
    [main], for a mode in which [run_fx] takes its default branch. *)
Definition bypass_block (p : ping_pong) (m : buffers) : option buffers :=
  m1 ← rx_samples p m; m2 ← pass_through m1; tx_samples p m2.

Definition sample_buffers : buffers :=
  {| rx_buffer := map (fun k => 65535 * Z.of_nat k) (seq 0 256);
     tx_buffer := replicate 256 7;
     left_in := replicate 64 f32_zero;
     left_out := replicate 64 f32_zero |}.

(** Menu states: the "Start" entry of sub-menu 3, the value of a parameter
    of sub-menu 1 being edited, and the threshold of the overdrive and the
    type of the ring modulator being confirmed. *)
Definition sample_menu_start : menu_t :=
  {| cnt := 0; past_cnt := 0; menu_depth := 1; item_selected := 0;
     sub_menu_selected := 3; show_values := 0 |}.

Definition sample_menu_edit : menu_t :=
  {| cnt := 50; past_cnt := 50; menu_depth := 2; item_selected := 1;
     sub_menu_selected := 1; show_values := 1 |}.

Definition sample_menu_threshold : menu_t :=
  {| cnt := 0; past_cnt := 0; menu_depth := 2; item_selected := 1;
     sub_menu_selected := MENU_OD; show_values := 1 |}.

Definition sample_menu_type : menu_t :=
  {| cnt := 50; past_cnt := 50; menu_depth := 2; item_selected := 3;
     sub_menu_selected := MENU_RM; show_values := 1 |}.

(** * Proofs *)

(** ** Scheduler *)

Lemma callback_state_range (es : list event) (s : sched) :
  pc s <> InErrorHandler ->
  callback_state s = NONE \/ callback_state s = HALFCPLT
    \/ callback_state s = CPLT ->
  pc (run es s) <> InErrorHandler /\
  (callback_state (run es s) = NONE \/ callback_state (run es s) = HALFCPLT
    \/ callback_state (run es s) = CPLT).
Proof.
  revert s. induction es as [|e es IH]; intros s Hpc Hcs; [done|].
  cbn [run fold_left]. apply IH.
  - destruct e; cbn [step].
    + unfold HAL_I2SEx_TxRxHalfCpltCallback. by destruct (pc s).
    + unfold HAL_I2SEx_TxRxCpltCallback. by destruct (pc s).
    + unfold main_step. destruct (pc s); [|done|done].
      destruct Hcs as [-> | [-> | ->]]; done.
  - destruct e; cbn [step].
    + unfold HAL_I2SEx_TxRxHalfCpltCallback.
      destruct (pc s); cbn; auto.
    + unfold HAL_I2SEx_TxRxCpltCallback.
      destruct (pc s); cbn; auto.
    + unfold main_step. destruct (pc s); [|cbn; auto|done].
      destruct Hcs as [-> | [-> | ->]]; cbn; auto.
Qed.

(** C1, as stated, fails: two half-complete notifications in a row leave
    the scheduler exactly where one leaves it, nothing is reported, and the
    control loop then processes one block and idles. *)
Lemma second_notification_not_reported :
  run [HalfComplete; HalfComplete] sched_initial
    = run [HalfComplete] sched_initial /\
  ~ overrun_reported (run [HalfComplete; HalfComplete] sched_initial) /\
  run [HalfComplete; HalfComplete; LoopStep; LoopStep; LoopStep] sched_initial
    = {| callback_state := NONE; pc := AtSwitch;
         calls := [call_rx_samples PING; call_run_fx; call_tx_samples PING;
                   call_display_menu] |}.
Proof. repeat split; done. Qed.

(** C1 (amended): a transfer callback stores its phase in the flag whatever
    the flag holds, so a notification that arrives before the previous one
    is processed replaces it; and under every sequence of notifications and
    loop steps the flag stays one of NONE, HALFCPLT, CPLT and the control
    loop never enters [Error_Handler]: no overrun is ever reported. *)
Theorem notification_overwrites_never_fatal (es : list event) :
  let s := run es sched_initial in
  ~ overrun_reported s /\
  (callback_state s = NONE \/ callback_state s = HALFCPLT
     \/ callback_state s = CPLT) /\
  callback_state (step s HalfComplete) = HALFCPLT /\
  callback_state (step s Complete) = CPLT /\
  step (step s HalfComplete) HalfComplete = step s HalfComplete /\
  step (step s Complete) Complete = step s Complete.
Proof.
  intros s.
  destruct (callback_state_range es sched_initial) as [Hpc Hcs];
    [done | by left |].
  fold s in Hpc, Hcs. unfold overrun_reported.
  repeat split; try done; cbn [step];
    unfold HAL_I2SEx_TxRxHalfCpltCallback, HAL_I2SEx_TxRxCpltCallback;
    destruct (pc s) eqn:E; cbn; try done; rewrite ?E; done.
Qed.

(** A notification that arrives while a block is being processed is erased
    by the store of NONE that ends the processing case. *)
Lemma notification_during_processing_lost :
  run [HalfComplete; LoopStep; Complete; LoopStep; LoopStep] sched_initial
    = {| callback_state := NONE; pc := AtSwitch;
         calls := [call_rx_samples PING; call_run_fx; call_tx_samples PING;
                   call_display_menu] |}.
Proof. done. Qed.

(** ** Floating-point comparisons *)

(** The literals are the binary32 (binary64) numbers nearest to their
    decimal values: the correctly rounded quotients of two integers. *)
Lemma float_literals_rounded :
  f32_0_99 = f32_div (f32_of_Z 99) (f32_of_Z 100) /\
  f32_0_4 = f32_div (f32_of_Z 4) (f32_of_Z 10) /\
  f32_0_5 = f32_div (f32_of_Z 1) (f32_of_Z 2) /\
  f32_0_995 = f32_div (f32_of_Z 995) (f32_of_Z 1000) /\
  f64_0_99 = f64_div (f64_of_Z 99) (f64_of_Z 100).
Proof. repeat split; vm_compute; reflexivity. Qed.

Lemma SFcompare_antisym (x y : spec_float) :
  SFcompare y x = option_map CompOpp (SFcompare x y).
Proof.
  destruct x as [sx|sx| |sx mx ex], y as [sy|sy| |sy my ey]; cbn;
    try done; try (by destruct sx); try (by destruct sy);
    try (by destruct sx, sy).
  destruct sx, sy; cbn; try done;
    rewrite (Z.compare_antisym ey ex);
    destruct (ey ?= ex); cbn; try done;
    change (PosDef.Pos.compare_cont Eq mx my)
      with (Pos.compare_cont (CompOpp Eq) mx my);
    rewrite <- (Pos.compare_cont_antisym my mx Eq);
    by destruct (Pos.compare_cont Eq my mx).
Qed.

Lemma SFcompare_defined (x y : spec_float) :
  is_nan x = false -> is_nan y = false -> exists c, SFcompare x y = Some c.
Proof.
  destruct x, y; cbn; intros; try done; eauto.
Qed.

Lemma le_negb_lt (x y : spec_float) :
  is_nan x = false -> is_nan y = false -> le x y = negb (lt y x).
Proof.
  intros Hx Hy. unfold le, lt, SFleb, SFltb.
  rewrite (SFcompare_antisym x y).
  destruct (SFcompare_defined x y Hx Hy) as [c ->]. by destruct c.
Qed.

Lemma ge_zero_or_le_one (x : float32_t) :
  is_nan x = false -> ge x f32_zero || le x f32_one = true.
Proof.
  destruct x as [s|s| |s m e]; try done; by destruct s.
Qed.


Lemma ge_negb_lt (x y : spec_float) :
  is_nan x = false -> is_nan y = false -> ge x y = negb (lt x y).
Proof. intros. unfold ge. fold (le y x). by apply le_negb_lt. Qed.

Lemma gt_negb_le (x y : spec_float) :
  is_nan x = false -> is_nan y = false -> gt x y = negb (le x y).
Proof.
  intros. rewrite le_negb_lt by done. unfold gt. fold (lt y x).
  by rewrite negb_involutive.
Qed.

(** ** Delay *)

Lemma delay_cond_accepted (d b f : float32_t) :
  is_nan d = false -> is_nan b = false -> is_nan f = false ->
  (le b f32_zero || ge b f32_one || le f f32_zero || ge f f32_0_99
     || gt d (f32_of_Z MAX_DELAY_TIME)) = false <->
  delay_params_accepted d b f.
Proof.
  intros Hd Hb Hf. unfold delay_params_accepted.
  rewrite (le_negb_lt b f32_zero), (ge_negb_lt b f32_one),
    (le_negb_lt f f32_zero), (ge_negb_lt f f32_0_99),
    (gt_negb_le d (f32_of_Z MAX_DELAY_TIME)) by done.
  destruct (lt f32_zero b), (lt b f32_one), (lt f32_zero f), (lt f f32_0_99),
    (le d (f32_of_Z MAX_DELAY_TIME)); cbn; intuition congruence.
Qed.

(** C8 (amended): with non-null buffers and parameters that are not NaN,
    [delay_init] returns 254 exactly when blend is outside (0,1), feedback
    is outside (0,0.99f) or the delay time exceeds MAX_DELAY_TIME (there is
    no lower bound on the delay time); a call that returns 254 changes
    neither the module state nor the handle, and a call that returns 0 has
    stored exactly the given delay time, blend, feedback and buffers. *)
Theorem delay_init_range_check (st : fx_state) (h : delay_handle_t)
    (inb outb : string) (d b f : float32_t) :
  is_nan d = false -> is_nan b = false -> is_nan f = false ->
  ((exists st' h',
      delay_init st h (Some inb) (Some outb) d b f = Some (254, st', h'))
     <-> ~ delay_params_accepted d b f) /\
  (forall st' h',
      delay_init st h (Some inb) (Some outb) d b f = Some (254, st', h') ->
      st' = st /\ h' = h) /\
  (forall st' h',
      delay_init st h (Some inb) (Some outb) d b f = Some (0, st', h') ->
      delay_ms h' = d /\ delay_blend h' = b /\ delay_feedback h' = f /\
      delay_src h' = Some inb /\ delay_dst h' = Some outb).
Proof.
  intros Hd Hb Hf.
  pose proof (delay_cond_accepted d b f Hd Hb Hf) as Hacc.
  unfold delay_init. cbn [is_null orb].
  destruct (le b f32_zero || ge b f32_one || le f f32_zero
            || ge f f32_0_99 || gt d (f32_of_Z MAX_DELAY_TIME)) eqn:Hc.
  - split; [|split].
    + split; [|by eauto]. intros _ Ha. apply Hacc in Ha. done.
    + intros st' h' [= <- <-]. done.
    + intros st' h' [=].
  - assert (Ha : delay_params_accepted d b f) by (by apply Hacc).
    set (R := if delay_rbd st =? FXDELAY then _ else _).
    assert (Hcases : forall c st' h',
      R ≫= (λ '(err, st1),
        if negb (err =? 0) then Some (253, st1, h)
        else to_uint16_t (f32_mul d (f32_div (f32_of_Z Fs) (f32_of_Z 1000)))
             ≫= λ n, delay_fill (Z.to_nat n) (rbs st1)
             ≫= λ s', Some (0, {| rbs := s'; _delay_rb := _delay_rb st1;
                                  delay_rbd := delay_rbd st1 |},
                            {| delay_ms := d; delay_blend := b;
                               delay_feedback := f;
                               delay_is_running := delay_is_running h;
                               delay_level := delay_level h;
                               delay_src := Some inb; delay_dst := Some outb;
                               delay_rb := Some "_delay_rb"%string |}))
        = Some (c, st', h') ->
      (c = 253 /\ h' = h) \/
      (c = 0 /\ h' = {| delay_ms := d; delay_blend := b;
                        delay_feedback := f;
                        delay_is_running := delay_is_running h;
                        delay_level := delay_level h;
                        delay_src := Some inb; delay_dst := Some outb;
                        delay_rb := Some "_delay_rb"%string |})).
    { intros c st' h' Hr. destruct R as [[err st1]|]; cbn in Hr; [|done].
      destruct (negb (err =? 0)); [left; by injection Hr as <- _ <-|].
      destruct (to_uint16_t _); cbn in Hr; [|done].
      destruct (delay_fill _ _); cbn in Hr; [|done].
      right. by injection Hr as <- _ <-. }
    cbn [delay_ms]. split; [|split].
    + split; [|done]. intros (st' & h' & Hr).
      apply Hcases in Hr as [[? _]|[? _]]; done.
    + intros st' h' Hr. apply Hcases in Hr as [[? _]|[? _]]; done.
    + intros st' h' Hr. apply Hcases in Hr as [[? _]|[_ ->]]; done.
Qed.

Lemma delay_init_range_check_witness :
  is_nan (f32_of_Z 400) = false /\ is_nan f32_0_4 = false /\
  ((exists st' h',
      delay_init fx_initial delay_handle_zero (Some "left_in"%string)
        (Some "left_out"%string) (f32_of_Z 400) f32_0_4 f32_0_4
        = Some (254, st', h'))
     <-> ~ delay_params_accepted (f32_of_Z 400) f32_0_4 f32_0_4) /\
  (forall st' h',
      delay_init fx_initial delay_handle_zero (Some "left_in"%string)
        (Some "left_out"%string) (f32_of_Z 400) f32_0_4 f32_0_4
        = Some (254, st', h') ->
      st' = fx_initial /\ h' = delay_handle_zero) /\
  (forall st' h',
      delay_init fx_initial delay_handle_zero (Some "left_in"%string)
        (Some "left_out"%string) (f32_of_Z 400) f32_0_4 f32_0_4
        = Some (0, st', h') ->
      delay_ms h' = f32_of_Z 400 /\ delay_blend h' = f32_0_4 /\
      delay_feedback h' = f32_0_4 /\
      delay_src h' = Some "left_in"%string /\
      delay_dst h' = Some "left_out"%string).
Proof.
  split; [reflexivity|]. split; [reflexivity|].
  apply (delay_init_range_check fx_initial delay_handle_zero
           "left_in" "left_out" (f32_of_Z 400) f32_0_4 f32_0_4);
    reflexivity.
Defined.

(** The return code and the handle of a [delay_init] call. *)
Lemma delay_init_main_call :
  (delay_init fx_initial delay_handle_zero (Some "left_in"%string)
     (Some "left_out"%string) (f32_of_Z 400) f32_0_4 f32_0_4
     ≫= λ '(c, _, h), Some (c, h))
  = Some (0, delay_handle_main).
Proof. vm_compute. reflexivity. Qed.

(** C8, as stated, fails in both directions: a feedback of 0.995 lies in
    (0,1) and is rejected with 254, and a delay time of 0 lies outside
    (0, MAX_DELAY_TIME] and is accepted. *)
Lemma delay_init_documented_ranges_fail :
  (lt f32_zero f32_0_995 = true /\ lt f32_0_995 f32_one = true /\
   delay_init fx_initial delay_handle_zero (Some "left_in"%string)
     (Some "left_out"%string) (f32_of_Z 400) f32_0_4 f32_0_995
   = Some (254, fx_initial, delay_handle_zero)) /\
  (lt f32_zero (f32_of_Z 0) = false /\
   (delay_init fx_initial delay_handle_zero (Some "left_in"%string)
      (Some "left_out"%string) (f32_of_Z 0) f32_0_4 f32_0_4
      ≫= λ '(c, _, h), Some (c, delay_ms h))
   = Some (0, f32_of_Z 0)).
Proof. repeat split; vm_compute; reflexivity. Qed.

Lemma delay_update_DELAY_frame (h : delay_handle_t) (v : float32_t) :
  gt v (f32_of_Z MAX_DELAY_TIME) = false ->
  delay_update h DELAY v = (0, set_delay_ms h v).
Proof. intros Hv. unfold delay_update. by rewrite Hv. Qed.

Lemma delay_update_BLEND_frame (h : delay_handle_t) (v : float32_t) :
  lt v f32_zero = false -> gt v f32_one = false ->
  delay_update h BLEND v = (0, set_delay_blend h v).
Proof.
  intros H0 H1. unfold delay_update, delay_update_BLEND.
  by rewrite H0, H1.
Qed.

(** Every accepted FEEDBACK update also stores the value in [blend]. *)
Lemma delay_update_FEEDBACK_falls_through (h : delay_handle_t) (v : float32_t) :
  lt v f32_zero = false -> gt v f32_one = false ->
  delay_update h FEEDBACK v = (0, set_delay_blend (set_delay_feedback h v) v).
Proof.
  intros H0 H1. unfold delay_update, delay_update_BLEND.
  by rewrite H0, H1.
Qed.

(** C2 (code): on the handle main.c sets up (blend 0.4, feedback 0.4),
    [delay_update(&h, FEEDBACK, 0.5)] returns 0 and leaves a handle whose
    feedback and blend are both 0.5: the blend field has changed. *)
Theorem delay_update_feedback_overwrites_blend :
  delay_update delay_handle_main FEEDBACK f32_0_5
    = (0, {| delay_ms := f32_of_Z 400; delay_blend := f32_0_5;
             delay_feedback := f32_0_5; delay_is_running := false;
             delay_level := f32_zero; delay_src := Some "left_in"%string;
             delay_dst := Some "left_out"%string;
             delay_rb := Some "_delay_rb"%string |}) /\
  delay_blend (snd (delay_update delay_handle_main FEEDBACK f32_0_5))
    <> delay_blend delay_handle_main.
Proof. split; [vm_compute; reflexivity | vm_compute; discriminate]. Qed.

(** ** Ring modulator *)

(** Whatever the blend and the waveform, a rate that is a number is
    rejected. *)
Lemma ring_mod_init_rejects_every_rate (h : ring_mod_handle_t)
    (inb outb : string) (rate blend : float32_t) (type : Z) :
  is_nan rate = false ->
  ring_mod_init h (Some inb) (Some outb) rate blend type = (254, h).
Proof.
  intros Hr. unfold ring_mod_init. cbn [is_null orb].
  by rewrite (ge_zero_or_le_one rate Hr).
Qed.

(** C3 (code): with non-null buffers, rate 0.5, blend 0.5 and the sine
    waveform, all inside the documented ranges, [ring_mod_init] returns 254
    and leaves the handle as it was. *)
Theorem ring_mod_init_rejects_in_range :
  lt f32_zero f32_0_5 = true /\ le f32_0_5 f32_one = true /\
  le f32_zero f32_0_5 = true /\ le (f64_of_f32 f32_0_5) f64_0_99 = true /\
  ring_mod_init ring_mod_handle_zero (Some "left_in"%string)
    (Some "left_out"%string) f32_0_5 f32_0_5 SINE
  = (254, ring_mod_handle_zero).
Proof. repeat split; vm_compute; reflexivity. Qed.

(** ** Fuzz *)

(** On a block of silence the running maximum stays at its initial 0. *)
Lemma fuzz_saturate_silence_peak (expf : float32_t -> float32_t)
    (gain : float32_t) :
  snd (fuzz_saturate expf gain silence f32_zero) = f32_zero.
Proof.
  destruct gain as [s|s| |s m e]; vm_compute; reflexivity.
Qed.

(** The running maximum stays at its initial 0 on every block none of
    whose saturated samples is positive. *)
Lemma fuzz_saturate_peak_zero (expf : float32_t -> float32_t)
    (gain : float32_t) (src : list float32_t) :
  Forall (fun s =>
            gt (fuzz_shape expf (f32_div (f32_mul s gain) two_pow_24))
               f32_zero = false) src ->
  snd (fuzz_saturate expf gain src f32_zero) = f32_zero.
Proof.
  induction src as [|s rest IH]; intros Hsrc; [done|].
  apply Forall_cons in Hsrc as [Hs Hrest]. cbn [fuzz_saturate].
  destruct (ne _ _).
  - rewrite Hs.
    destruct (fuzz_saturate expf gain rest f32_zero) as [zs m] eqn:E.
    cbn [snd] in *. by apply IH.
  - destruct (fuzz_saturate expf gain rest f32_zero) as [zs m] eqn:E.
    cbn [snd] in *. by apply IH.
Qed.

(** With a maximum of 0 an output sample is a quotient by zero plus the dry
    part: never a finite number built from the saturated sample. *)
Lemma fuzz_mix_sample_zero_peak (mix z s : float32_t) :
  fuzz_mix_sample mix f32_zero z s
  = f32_add (f32_div (f32_mul (f32_mul mix z) two_pow_24) f32_zero)
            (f32_mul (f32_sub f32_one mix) s) /\
  match f32_div (f32_mul (f32_mul mix z) two_pow_24) f32_zero with
  | S754_finite _ _ _ | S754_zero _ => False
  | _ => True
  end.
Proof.
  split; [done|].
  destruct (f32_mul (f32_mul mix z) two_pow_24); done.
Qed.

(** C9 (code): on a block of silence, whatever the gain and the mix of the
    handle, the running maximum is 0, the quotient by it is not guarded, and
    every output sample of [run_fuzz] is a NaN. *)
Theorem run_fuzz_silence_divides_by_zero (expf : float32_t -> float32_t)
    (h : fuzz_handle_t) :
  snd (fuzz_saturate expf (fuzz_gain h) silence f32_zero) = f32_zero /\
  run_fuzz expf h silence silence
    = Some (replicate (Z.to_nat PING_PONG_BUFFER_SIZE) S754_nan).
Proof.
  split; [apply fuzz_saturate_silence_peak|].
  destruct h as [g mx r s d]. unfold run_fuzz. cbn [fuzz_gain fuzz_mix].
  destruct g as [sg|sg| |sg mg eg], mx as [sm|sm| |sm mm em];
    vm_compute; reflexivity.
Qed.

(** ** Ring buffer *)

Lemma to_size_t_small (z : Z) : 0 <= z < 2 ^ 32 -> to_size_t z = z.
Proof. intros. unfold to_size_t, wrap. by apply Z.mod_small. Qed.

Lemma to_size_t_range (z : Z) : 0 <= to_size_t z < 2 ^ 32.
Proof. unfold to_size_t, wrap. apply Z.mod_pos_bound. lia. Qed.

Lemma pow2_check_power (n : Z) :
  0 < n < 2 ^ 32 -> pow2_check n = true -> power_of_two n.
Proof.
  intros Hn Hc. unfold pow2_check in Hc. apply Z.eqb_eq in Hc.
  rewrite to_size_t_small in Hc by lia.
  exists (Z.log2 n). split; [apply Z.log2_nonneg|].
  destruct (Z.log2_spec n) as [Hlo Hhi]; [lia|].
  destruct (Z.eq_dec n (2 ^ Z.log2 n)) as [|Hne]; [done|exfalso].
  assert (Hl : Z.log2 (n - 1) = Z.log2 n).
  { apply Z.log2_unique; [apply Z.log2_nonneg|]. lia. }
  assert (0 < 2 ^ Z.log2 n)
    by (apply Z.pow_pos_nonneg; [lia | apply Z.log2_nonneg]).
  assert (Hb : Z.testbit (Z.land (n - 1) n) (Z.log2 n) = true).
  { rewrite Z.land_spec. rewrite <- Hl at 1.
    rewrite !Z.bit_log2 by lia. done. }
  rewrite Hc in Hb. by rewrite Z.bits_0 in Hb.
Qed.

Lemma power_pow2_check (k : Z) : 0 <= k -> pow2_check (2 ^ k) = true.
Proof.
  intros Hk. unfold pow2_check. apply Z.eqb_eq.
  apply Z.bits_inj'. intros i Hi. rewrite Z.land_spec, Z.bits_0.
  rewrite Z.pow2_bits_eqb by done.
  destruct (Z.eqb_spec k i) as [<-|Hne]; [|by rewrite andb_false_r].
  rewrite andb_true_r. unfold to_size_t, wrap.
  destruct (Z_lt_le_dec k 32).
  - rewrite Z.mod_small.
    + replace (2 ^ k - 1) with (Z.ones k) by (rewrite Z.ones_equiv; lia).
      apply Z.ones_spec_high. lia.
    + assert (2 ^ k < 2 ^ 32) by (apply Z.pow_lt_mono_r; lia). 
      assert (0 < 2 ^ k) by (apply Z.pow_pos_nonneg; lia). lia.
  - apply Z.mod_pow2_bits_high. lia.
Qed.

Lemma pow2_check_spec (n : Z) :
  0 < n < 2 ^ 32 -> pow2_check n = true <-> power_of_two n.
Proof.
  intros Hn. split; [by apply pow2_check_power|].
  intros (k & Hk & ->). by apply power_pow2_check.
Qed.

Lemma zero_not_power_of_two : ~ power_of_two 0.
Proof.
  intros (k & Hk & H0). assert (0 < 2 ^ k) by (apply Z.pow_pos_nonneg; lia). lia.
Qed.



Section SlotLists.
Local Open Scope nat_scope.
Implicit Types (b d : list byte) (e i j : nat).

Lemma length_slot_write e i d b :
  i * e + e <= length b -> e <= length d ->
  length (slot_write e i d b) = length b.
Proof.
  intros Hb Hd. unfold slot_write.
  rewrite !length_app, !length_take, length_drop. lia.
Qed.

Lemma slot_read_write_same e i d b :
  i * e + e <= length b -> e <= length d ->
  slot_read e i (slot_write e i d b) = take e d.
Proof.
  intros Hb Hd. unfold slot_read, slot_write.
  rewrite drop_app_length' by (rewrite length_take; lia).
  rewrite take_app_length' by (rewrite length_take; lia). done.
Qed.

Lemma slot_read_write_other e i j d b :
  i <> j -> i * e + e <= length b -> e <= length d ->
  slot_read e j (slot_write e i d b) = slot_read e j b.
Proof.
  intros Hij Hb Hd. unfold slot_read, slot_write.
  apply list_eq. intros t. rewrite !lookup_take.
  case_decide; [|done]. rewrite !lookup_drop.
  destruct (decide (j < i)).
  - rewrite lookup_app_l by (rewrite length_take; nia).
    rewrite lookup_take_lt by nia. done.
  - rewrite lookup_app_r by (rewrite length_take; nia).
    rewrite lookup_app_r by (rewrite !length_take; nia).
    rewrite lookup_drop, !length_take. f_equal. nia.
Qed.

Lemma length_slot_read e i b :
  i * e + e <= length b -> length (slot_read e i b) = e.
Proof.
  intros. unfold slot_read. rewrite length_take, length_drop. lia.
Qed.
End SlotLists.

Lemma slot_load_0 (st : rb_state) (rb : ring_buffer) :
  slot_load st 0 = Some rb ->
  _rb st !! 0%nat = Some rb /\ (0 < length (_rb st))%nat.
Proof.
  unfold slot_load. cbn. intros H. split; [done|].
  apply lookup_lt_is_Some. by eexists.
Qed.

Lemma slot_store_0 (st : rb_state) (rb rb' : ring_buffer) :
  slot_load st 0 = Some rb -> slot_store st 0 rb' = Some (with_slot st rb').
Proof.
  intros [_ Hlen]%slot_load_0. unfold slot_store.
  replace (0 <? Z.of_nat (length (_rb st))) with true
    by (symmetry; apply Z.ltb_lt; lia). done.
Qed.

Lemma slot_load_with_slot (st : rb_state) (rb rb' : ring_buffer) :
  slot_load st 0 = Some rb -> slot_load (with_slot st rb') 0 = Some rb'.
Proof.
  intros [_ Hlen]%slot_load_0. unfold slot_load, with_slot. cbn.
  by apply list_lookup_insert_eq.
Qed.

Lemma with_slot_twice (st : rb_state) (rb rb' : ring_buffer) :
  with_slot (with_slot st rb) rb' = with_slot st rb'.
Proof. unfold with_slot. cbn. f_equal. apply list_insert_insert_eq. Qed.

Section Initialised.

Variable rb : ring_buffer.
Hypothesis Hwf : rb_wf rb.

Let E := rb_element_size rb.
Let N := rb_max_elements rb.

Lemma wf_capacity : N = 0 \/ exists k, 0 <= k < 32 /\ N = 2 ^ k.
Proof.
  destruct Hwf as [_ HN Hp _ _ _ _ _]. fold N in HN, Hp.
  destruct (Z.eq_dec N 0) as [|Hne]; [by left|right].
  destruct (pow2_check_power N) as (k & Hk & HNk); [lia|done|].
  exists k. split; [|done]. split; [done|].
  apply (Z.pow_lt_mono_r_iff 2); lia.
Qed.

Lemma wf_divides : 0 < N -> (N | 2 ^ 32).
Proof.
  intros HN. destruct wf_capacity as [|(k & Hk & HNk)]; [lia|].
  exists (2 ^ (32 - k)). rewrite HNk, <- Z.pow_add_r by lia.
  f_equal. lia.
Qed.

Lemma to_size_t_mod_capacity (z : Z) : 0 < N -> to_size_t z mod N = z mod N.
Proof.
  intros HN. unfold to_size_t, wrap.
  apply Z.mod_mod_divide. by apply wf_divides.
Qed.

Lemma slot_offset_mod (c : Z) :
  0 < N -> 0 <= c -> slot_offset rb c = (c mod N) * E.
Proof.
  intros HN Hc. unfold slot_offset. fold N E.
  destruct wf_capacity as [|(k & Hk & HNk)]; [lia|].
  destruct Hwf as [HE HNr _ _ Haddr _ _ _]. fold N E in HE, HNr, Haddr.
  rewrite (to_size_t_small (N - 1)) by lia.
  replace (N - 1) with (Z.ones k) by (rewrite Z.ones_equiv, HNk; lia).
  rewrite Z.land_ones by lia. rewrite <- HNk.
  apply to_size_t_small.
  pose proof (Z.mod_pos_bound c N HN). nia.
Qed.

Lemma count_range : 0 <= rb_count rb <= N.
Proof.
  split; [apply to_size_t_range | apply (wf_count rb Hwf)].
Qed.

(** The counter values [tail + j] and [tail + count] designate different
    slots while [j < count < capacity]. *)
Lemma slots_distinct (t j c : Z) :
  0 <= j < c -> c < N -> (t + j) mod N <> (t + c) mod N.
Proof.
  intros Hj Hc Heq.
  assert (HN : 0 < N) by lia.
  pose proof (Z.div_mod (t + j) N) as H1.
  pose proof (Z.div_mod (t + c) N) as H2.
  rewrite Heq in H1.
  set (q := (t + c) / N - (t + j) / N).
  assert (Hq : c - j = N * q) by (unfold q; lia).
  destruct (Z_le_gt_dec q 0); nia.
Qed.

Lemma head_slot : 0 < N ->
  rb_head rb mod N = (rb_tail rb + rb_count rb) mod N.
Proof.
  intros HN. unfold rb_count.
  rewrite <- (to_size_t_mod_capacity (rb_tail rb + _)) by done.
  unfold to_size_t, wrap.
  rewrite Zplus_mod_idemp_r.
  replace (rb_tail rb + (rb_head rb - rb_tail rb)) with (rb_head rb) by lia.
  destruct Hwf as [_ _ _ _ _ Hh _ _].
  by rewrite (Z.mod_small (rb_head rb) (2 ^ 32)) by lia.
Qed.

Lemma count_after_put : rb_count rb < N ->
  forall data, rb_count (rb_after_put rb data) = rb_count rb + 1.
Proof.
  intros Hc data. unfold rb_count, rb_after_put. cbn [rb_head rb_tail].
  unfold to_size_t, wrap.
  rewrite Zminus_mod_idemp_l.
  replace (rb_head rb + 1 - rb_tail rb)
    with ((rb_head rb - rb_tail rb) + 1) by lia.
  rewrite <- Zplus_mod_idemp_l.
  apply Z.mod_small.
  pose proof count_range as Hr. unfold rb_count, to_size_t, wrap in Hr, Hc.
  destruct Hwf as [_ HNr _ _ _ _ _ _]. fold N in HNr. lia.
Qed.

Lemma count_after_get : rb_count rb <> 0 ->
  rb_count (rb_after_get rb) = rb_count rb - 1.
Proof.
  intros Hc. unfold rb_count, rb_after_get. cbn [rb_head rb_tail].
  unfold to_size_t, wrap.
  rewrite Zminus_mod_idemp_r.
  replace (rb_head rb - (rb_tail rb + 1))
    with ((rb_head rb - rb_tail rb) - 1) by lia.
  rewrite <- Zminus_mod_idemp_l.
  apply Z.mod_small.
  pose proof count_range as Hr. unfold rb_count, to_size_t, wrap in Hr, Hc.
  destruct Hwf as [_ HNr _ _ _ _ _ _]. fold N in HNr. lia.
Qed.

End Initialised.

Lemma put_full (st : rb_state) (rb : ring_buffer) (data : list byte) :
  slot_load st 0 = Some rb -> rb_count rb = rb_max_elements rb ->
  ring_buffer_put st 0 data = Some (FAILURE, st).
Proof.
  intros Hs Hc. unfold ring_buffer_put. cbn [Z.ltb Z.compare RING_BUFFER_MAX].
  rewrite Hs. cbn [mbind option_bind]. unfold _ring_buffer_full.
  fold (rb_count rb). rewrite Hc, Z.eqb_refl. done.
Qed.

Lemma get_empty (st : rb_state) (rb : ring_buffer) (data : list byte) :
  slot_load st 0 = Some rb -> rb_count rb = 0 ->
  ring_buffer_get st 0 data = Some (FAILURE, data, st).
Proof.
  intros Hs Hc. unfold ring_buffer_get. cbn [Z.ltb Z.compare RING_BUFFER_MAX].
  rewrite Hs. cbn [mbind option_bind]. unfold _ring_buffer_empty.
  fold (rb_count rb). rewrite Hc. done.
Qed.

Lemma put_not_full (st : rb_state) (rb : ring_buffer) (data : list byte) :
  slot_load st 0 = Some rb -> rb_wf rb ->
  rb_count rb <> rb_max_elements rb ->
  rb_element_size rb <= Z.of_nat (length data) ->
  ring_buffer_put st 0 data
    = Some (SUCCESS, with_slot st (rb_after_put rb data)).
Proof.
  intros Hs Hwf Hc Hd.
  pose proof (count_range rb Hwf) as Hr.
  assert (HN : 0 < rb_max_elements rb) by lia.
  destruct (wf_storage rb Hwf) as (b & Hb & Hlen).
  pose proof (wf_element_size rb Hwf) as HE.
  pose proof (wf_head rb Hwf) as Hh.
  pose proof (Z.mod_pos_bound (rb_head rb) _ HN) as Hi.
  unfold ring_buffer_put. cbn [Z.ltb Z.compare RING_BUFFER_MAX].
  rewrite Hs. cbn [mbind option_bind]. unfold _ring_buffer_full.
  fold (rb_count rb). destruct (Z.eqb_spec (rb_count rb) (rb_max_elements rb));
    [done|]. cbn [Z.eqb].
  rewrite (slot_offset_mod rb Hwf) by lia.
  rewrite Hb. cbn [mbind option_bind]. unfold memcpy_to.
  rewrite !andb_true_intro; cycle 1.
  { repeat split; try apply Z.leb_le; try apply andb_true_intro; 
      repeat split; try apply Z.leb_le; nia. }
  cbn [mbind option_bind].
  rewrite (slot_store_0 st rb) by done. cbn [mbind option_bind].
  unfold rb_after_put. rewrite Hb. cbn [mbind option_bind].
  unfold slot_write.
  rewrite Z2Nat.inj_add, Z2Nat.inj_mul by lia. done.
Qed.

Lemma get_not_empty (st : rb_state) (rb : ring_buffer) (data : list byte) :
  slot_load st 0 = Some rb -> rb_wf rb ->
  rb_count rb <> 0 ->
  rb_element_size rb <= Z.of_nat (length data) ->
  ring_buffer_get st 0 data
    = Some (SUCCESS,
            rb_oldest rb ++ drop (Z.to_nat (rb_element_size rb)) data,
            with_slot st (rb_after_get rb)).
Proof.
  intros Hs Hwf Hc Hd.
  pose proof (count_range rb Hwf) as Hr.
  assert (HN : 0 < rb_max_elements rb) by lia.
  destruct (wf_storage rb Hwf) as (b & Hb & Hlen).
  pose proof (wf_element_size rb Hwf) as HE.
  pose proof (wf_tail rb Hwf) as Ht.
  pose proof (Z.mod_pos_bound (rb_tail rb) _ HN) as Hi.
  unfold ring_buffer_get. cbn [Z.ltb Z.compare RING_BUFFER_MAX].
  rewrite Hs. cbn [mbind option_bind]. unfold _ring_buffer_empty.
  fold (rb_count rb). destruct (Z.eqb_spec (rb_count rb) 0); [done|].
  cbn [Z.eqb].
  rewrite (slot_offset_mod rb Hwf) by lia.
  rewrite Hb. cbn [mbind option_bind]. unfold memcpy_from.
  rewrite !andb_true_intro; cycle 1.
  { repeat split; try apply Z.leb_le; try apply andb_true_intro; 
      repeat split; try apply Z.leb_le; nia. }
  cbn [mbind option_bind].
  rewrite (slot_store_0 st rb) by done. cbn [mbind option_bind].
  unfold rb_oldest, rb_after_get, slot_read. rewrite Hb.
  rewrite Z2Nat.inj_mul by lia. done.
Qed.

Lemma wf_after_put (rb : ring_buffer) (data : list byte) :
  rb_wf rb -> rb_count rb <> rb_max_elements rb ->
  rb_element_size rb <= Z.of_nat (length data) ->
  rb_wf (rb_after_put rb data).
Proof.
  intros Hwf Hc Hd.
  pose proof (count_range rb Hwf) as Hr.
  assert (HN : 0 < rb_max_elements rb) by lia.
  destruct (wf_storage rb Hwf) as (b & Hb & Hlen).
  pose proof (wf_element_size rb Hwf) as HE.
  pose proof (Z.mod_pos_bound (rb_head rb) _ HN) as Hi.
  assert (Hc' : rb_count (rb_after_put rb data) = rb_count rb + 1)
    by (apply count_after_put; [done | lia]).
  destruct Hwf as [? ? ? _ ? ? ? ?].
  split; cbn [rb_after_put rb_element_size rb_max_elements rb_buf rb_head
              rb_tail]; try done.
  - rewrite Hb. cbn [mbind option_bind]. eexists. split; [done|].
    rewrite length_slot_write; [done| |lia].
    rewrite <- Z2Nat.inj_mul, <- Z2Nat.inj_add by lia. nia.
  - apply to_size_t_range.
  - lia.
Qed.

Lemma wf_after_get (rb : ring_buffer) :
  rb_wf rb -> rb_count rb <> 0 -> rb_wf (rb_after_get rb).
Proof.
  intros Hwf Hc.
  pose proof (count_range rb Hwf) as Hr.
  pose proof (count_after_get rb Hwf Hc) as Hc'.
  destruct Hwf as [? ? ? ? ? ? ? ?].
  split; cbn [rb_after_get rb_element_size rb_max_elements rb_buf rb_head
              rb_tail]; try done.
  - apply to_size_t_range.
  - lia.
Qed.

Lemma length_contents (rb : ring_buffer) :
  rb_wf rb -> length (rb_contents rb) = Z.to_nat (rb_count rb).
Proof.
  intros Hwf. destruct (wf_storage rb Hwf) as (b & Hb & _).
  unfold rb_contents. rewrite Hb. by rewrite length_map, length_seq.
Qed.

Lemma contents_after_put (rb : ring_buffer) (data : list byte) :
  rb_wf rb -> rb_count rb <> rb_max_elements rb ->
  rb_element_size rb <= Z.of_nat (length data) ->
  rb_contents (rb_after_put rb data)
    = rb_contents rb ++ [take (Z.to_nat (rb_element_size rb)) data].
Proof.
  intros Hwf Hc Hd.
  pose proof (count_range rb Hwf) as Hr.
  assert (HN : 0 < rb_max_elements rb) by lia.
  destruct (wf_storage rb Hwf) as (b & Hb & Hlen).
  pose proof (wf_element_size rb Hwf) as HE.
  pose proof (Z.mod_pos_bound (rb_head rb) _ HN) as Hi.
  assert (Hfit : (Z.to_nat (rb_head rb mod rb_max_elements rb)
                  * Z.to_nat (rb_element_size rb)
                  + Z.to_nat (rb_element_size rb) <= length b)%nat).
  { rewrite <- Z2Nat.inj_mul, <- Z2Nat.inj_add by lia. nia. }
  unfold rb_contents. rewrite count_after_put by (done || lia).
  cbn [rb_after_put rb_element_size rb_max_elements rb_buf rb_head rb_tail].
  rewrite Hb. cbn [mbind option_bind].
  rewrite Z2Nat.inj_add by lia. change (Z.to_nat 1) with 1%nat.
  rewrite Nat.add_1_r, seq_S, map_app. cbn [map Nat.add]. f_equal.
  - apply map_ext_in. intros j Hj%in_seq.
    apply slot_read_write_other; [|done|lia].
    intros Heq. apply Z2Nat.inj in Heq;
      [|lia|apply Z.mod_pos_bound; lia].
    rewrite (head_slot rb Hwf HN) in Heq. symmetry in Heq.
    revert Heq. apply (slots_distinct rb); lia.
  - f_equal. rewrite Z2Nat.id by lia.
    rewrite <- (head_slot rb Hwf HN).
    apply slot_read_write_same; [done|lia].
Qed.

Lemma contents_after_get (rb : ring_buffer) :
  rb_wf rb -> rb_count rb <> 0 ->
  rb_contents rb = rb_oldest rb :: rb_contents (rb_after_get rb).
Proof.
  intros Hwf Hc.
  pose proof (count_range rb Hwf) as Hr.
  assert (HN : 0 < rb_max_elements rb) by lia.
  destruct (wf_storage rb Hwf) as (b & Hb & Hlen).
  unfold rb_contents, rb_oldest. rewrite (count_after_get rb Hwf Hc).
  cbn [rb_after_get rb_element_size rb_max_elements rb_buf rb_head rb_tail].
  rewrite Hb.
  replace (Z.to_nat (rb_count rb)) with (S (Z.to_nat (rb_count rb - 1)))
    by lia.
  cbn [seq map]. rewrite Z.add_0_r. f_equal.
  rewrite <- seq_shift, map_map. apply map_ext. intros j.
  do 2 f_equal.
  rewrite <- (Zplus_mod_idemp_l (to_size_t _)).
  rewrite (to_size_t_mod_capacity rb Hwf) by done.
  rewrite Zplus_mod_idemp_l. f_equal. lia.
Qed.

Lemma with_slot_id (st : rb_state) (rb : ring_buffer) :
  slot_load st 0 = Some rb -> with_slot st rb = st.
Proof.
  intros [Hl _]%slot_load_0. destruct st as [ix tbl]. unfold with_slot.
  cbn in *. f_equal. by apply list_insert_id.
Qed.

Lemma put_all_spec (ds : list (list byte)) : forall (st : rb_state) (rb : ring_buffer),
  slot_load st 0 = Some rb -> rb_wf rb ->
  rb_count rb + Z.of_nat (length ds) <= rb_max_elements rb ->
  Forall (fun d => Z.of_nat (length d) = rb_element_size rb) ds ->
  exists rb',
    put_all st 0 ds = Some (map (fun _ => SUCCESS) ds, with_slot st rb') /\
    rb_wf rb' /\
    rb_element_size rb' = rb_element_size rb /\
    rb_max_elements rb' = rb_max_elements rb /\
    rb_contents rb' = rb_contents rb ++ ds.
Proof.
  induction ds as [|d ds IH]; intros st rb Hs Hwf Hc Hds.
  - exists rb. cbn. rewrite app_nil_r, with_slot_id by done. done.
  - apply Forall_cons in Hds as [Hd Hds]. cbn [length] in Hc.
    pose proof (count_range rb Hwf) as Hr.
    assert (Hnf : rb_count rb <> rb_max_elements rb) by lia.
    destruct (IH (with_slot st (rb_after_put rb d)) (rb_after_put rb d))
      as (rb' & Hput & Hwf' & HE' & HN' & Hcont).
    + by eapply slot_load_with_slot.
    + apply wf_after_put; [done|done|lia].
    + rewrite count_after_put by (done || lia). cbn. lia.
    + done.
    + exists rb'. cbn [put_all].
      rewrite (put_not_full st rb d) by (done || lia).
      cbn [mbind option_bind]. rewrite Hput. cbn [mbind option_bind].
      rewrite with_slot_twice.
      split; [done|]. split; [done|]. split; [done|]. split; [done|].
      rewrite Hcont, contents_after_put by (done || lia).
      rewrite <- app_assoc. cbn [app]. do 2 f_equal.
      apply take_ge. lia.
Qed.

Lemma get_all_spec (outs : list (list byte)) : forall (st : rb_state) (rb : ring_buffer),
  slot_load st 0 = Some rb -> rb_wf rb ->
  length outs = length (rb_contents rb) ->
  Forall (fun o => Z.of_nat (length o) = rb_element_size rb) outs ->
  exists rb',
    get_all st 0 outs
      = Some (map (fun c => (SUCCESS, c)) (rb_contents rb), with_slot st rb') /\
    rb_wf rb' /\ rb_count rb' = 0.
Proof.
  induction outs as [|o outs IH]; intros st rb Hs Hwf Hlen Hos.
  - exists rb. symmetry in Hlen. apply length_zero_iff_nil in Hlen as Hnil.
    rewrite Hnil. cbn. rewrite with_slot_id by done.
    split; [done|]. split; [done|].
    rewrite length_contents in Hlen by done. cbn [length] in Hlen.
    pose proof (count_range rb Hwf). lia.
  - apply Forall_cons in Hos as [Ho Hos].
    assert (Hne : rb_count rb <> 0).
    { rewrite length_contents in Hlen by done. cbn [length] in Hlen. lia. }
    rewrite (contents_after_get rb Hwf Hne) in Hlen |- *.
    cbn [length] in Hlen.
    destruct (IH (with_slot st (rb_after_get rb)) (rb_after_get rb))
      as (rb' & Hget & Hwf' & Hc').
    + by eapply slot_load_with_slot.
    + by apply wf_after_get.
    + lia.
    + done.
    + exists rb'. cbn [get_all].
      rewrite (get_not_empty st rb o) by (done || lia).
      cbn [mbind option_bind]. rewrite Hget. cbn [mbind option_bind].
      rewrite with_slot_twice. split; [|done].
      cbn [map]. do 4 f_equal.
      rewrite drop_ge by lia. apply app_nil_r.
Qed.

(** [ring_buffer_init] establishes the invariant when the caller supplies
    exactly [max_elements * element_size] bytes of storage. *)
Lemma init_establishes_wf (rbd : Z) (e n : Z) (b : list byte)
    (rbd' : option Z) (st' : rb_state) :
  0 <= n < 2 ^ 32 -> n * e < 2 ^ 32 -> Z.of_nat (length b) = n * e ->
  ring_buffer_init rb_initial (Some rbd)
    (Some {| element_size := e; max_elements := n; buffer := Some b |})
  = Some (SUCCESS, rbd', st') ->
  exists rb, slot_load st' 0 = Some rb /\ rb_wf rb /\ rb_contents rb = [].
Proof.
  intros Hn Hne Hlen. unfold ring_buffer_init.
  cbn [index rb_initial buffer element_size max_elements Z.ltb Z.compare
       RING_BUFFER_MAX].
  destruct (Z.ltb_spec 0 e) as [He|]; [|done]. cbn [andb].
  destruct (pow2_check n) eqn:Hp; [|done].
  intros [= _ <-]. eexists. split; [reflexivity|]. split.
  - split; cbn [rb_element_size rb_max_elements rb_buf rb_head rb_tail];
      try done; try lia.
    + by exists b.
    + unfold rb_count. cbn [rb_head rb_tail].
      change (to_size_t (0 - 0)) with 0. lia.
  - reflexivity.
Qed.

(** A designator outside the table is refused by both operations: this is
    what the delay effect, which passes FXDELAY, gets. *)
Lemma put_get_invalid_designator (st : rb_state) (rbd : Z) (data : list byte) :
  RING_BUFFER_MAX <= rbd ->
  ring_buffer_put st rbd data = Some (FAILURE, st) /\
  ring_buffer_get st rbd data = Some (FAILURE, data, st).
Proof.
  intros Hr. unfold ring_buffer_put, ring_buffer_get.
  destruct (Z.ltb_spec rbd RING_BUFFER_MAX); [lia|done].
Qed.

(** C5: on an initialised, empty ring buffer, at most capacity-many
    [ring_buffer_put] calls all succeed, the [ring_buffer_get] calls that
    follow return exactly the elements put, in the order they were put, and
    the buffer is empty again afterwards. *)
Theorem ring_buffer_fifo (st : rb_state) (rb : ring_buffer)
    (ds outs : list (list byte)) :
  slot_load st 0 = Some rb -> rb_wf rb -> rb_head rb = rb_tail rb ->
  Z.of_nat (length ds) <= rb_max_elements rb ->
  Forall (fun d => Z.of_nat (length d) = rb_element_size rb) ds ->
  Forall (fun o => Z.of_nat (length o) = rb_element_size rb) outs ->
  length outs = length ds ->
  exists st1 st2,
    put_all st 0 ds = Some (map (fun _ => SUCCESS) ds, st1) /\
    get_all st1 0 outs = Some (map (fun d => (SUCCESS, d)) ds, st2) /\
    (forall o, ring_buffer_get st2 0 o = Some (FAILURE, o, st2)).
Proof.
  intros Hs Hwf Hempty Hlen Hds Hos Hlo.
  assert (Hc : rb_count rb = 0).
  { unfold rb_count. rewrite Hempty, Z.sub_diag. done. }
  assert (Hnil : rb_contents rb = []).
  { apply length_zero_iff_nil. rewrite length_contents, Hc; done. }
  destruct (put_all_spec ds st rb) as (rb1 & Hput & Hwf1 & HE1 & HN1 & Hcont);
    [done | done | lia | done |].
  rewrite Hnil in Hcont. cbn [app] in Hcont.
  destruct (get_all_spec outs (with_slot st rb1) rb1)
    as (rb2 & Hget & Hwf2 & Hc2).
  - by eapply slot_load_with_slot.
  - done.
  - by rewrite Hcont.
  - by rewrite HE1.
  - rewrite Hcont, with_slot_twice in Hget.
    exists (with_slot st rb1), (with_slot st rb2).
    split; [done|]. split; [done|]. intros o.
    apply (get_empty _ rb2); [|done]. by eapply slot_load_with_slot.
Qed.

(** C6: on an initialised ring buffer [ring_buffer_put] returns FAILURE
    exactly when [head - tail] equals the capacity and [ring_buffer_get]
    returns FAILURE exactly when [head - tail] is 0; a failing call leaves
    the module state (head, tail, storage) and the destination object as
    they were, and every other call returns SUCCESS. *)
Theorem put_get_full_empty (st : rb_state) (rb : ring_buffer)
    (data : list byte) :
  slot_load st 0 = Some rb -> rb_wf rb ->
  rb_element_size rb <= Z.of_nat (length data) ->
  (exists r st',
      ring_buffer_put st 0 data = Some (r, st') /\
      (r = FAILURE <-> rb_count rb = rb_max_elements rb) /\
      (r = FAILURE -> st' = st) /\
      (r <> FAILURE -> r = SUCCESS)) /\
  (exists r data' st',
      ring_buffer_get st 0 data = Some (r, data', st') /\
      (r = FAILURE <-> rb_count rb = 0) /\
      (r = FAILURE -> st' = st /\ data' = data) /\
      (r <> FAILURE -> r = SUCCESS)).
Proof.
  intros Hs Hwf Hd. split.
  - destruct (Z.eq_dec (rb_count rb) (rb_max_elements rb)) as [Hc|Hc].
    + exists FAILURE, st. rewrite (put_full st rb) by done.
      repeat split; done.
    + eexists SUCCESS, _. rewrite (put_not_full st rb) by done.
      repeat split; done.
  - destruct (Z.eq_dec (rb_count rb) 0) as [Hc|Hc].
    + exists FAILURE, data, st. rewrite (get_empty st rb) by done.
      repeat split; done.
    + eexists SUCCESS, _, _. rewrite (get_not_empty st rb) by done.
      repeat split; done.
Qed.

Lemma init_fails_when_used (st : rb_state) (rbd : option Z)
    (attr : option rb_handle_t) :
  RING_BUFFER_MAX <= index st ->
  ring_buffer_init st rbd attr = Some (FAILURE, rbd, st).
Proof.
  intros Hi. unfold ring_buffer_init.
  destruct rbd, attr; try done.
  destruct (Z.ltb_spec (index st) RING_BUFFER_MAX); [lia|done].
Qed.

Lemma init_success_index (st st' : rb_state) (rbd rbd' : option Z)
    (attr : option rb_handle_t) :
  ring_buffer_init st rbd attr = Some (SUCCESS, rbd', st') ->
  index st = 0 /\ index st' = 1.
Proof.
  unfold ring_buffer_init. intros H.
  destruct rbd, attr as [a|]; try done.
  destruct (Z.ltb_spec (index st) RING_BUFFER_MAX) as [Hlt|]; [|done].
  destruct (buffer a); [|done].
  destruct (_ && _); [|done].
  unfold slot_store in H.
  destruct (Z.leb_spec 0 (index st)) as [Hle|]; [|done].
  assert (Hi : index st = 0) by (unfold RING_BUFFER_MAX in Hlt; lia).
  destruct (_ <? _); cbn in H; [|done].
  injection H as _ <-. cbn. by rewrite Hi.
Qed.

Lemma slot_store_index (st st' : rb_state) (i : Z) (rb : ring_buffer) :
  slot_store st i rb = Some st' -> index st' = index st.
Proof.
  unfold slot_store. destruct (_ && _); [|done]. by intros [= <-].
Qed.

Lemma rb_exec_index (st st' : rb_state) (c : rb_call) :
  RING_BUFFER_MAX <= index st -> rb_exec st c = Some st' ->
  index st' = index st.
Proof.
  intros Hi. destruct c as [rbd attr|rbd data|rbd data|rbd|rbd]; cbn [rb_exec].
  - rewrite init_fails_when_used by done. cbn. by intros [= <-].
  - unfold ring_buffer_put.
    destruct (rbd <? RING_BUFFER_MAX); [|cbn; by intros [= <-]].
    destruct (slot_load st rbd) as [rb|]; [|done]. cbn [mbind option_bind].
    destruct (_ =? 0); [|cbn; by intros [= <-]].
    destruct (rb_buf rb) as [b|]; [|done]. cbn [mbind option_bind].
    destruct (memcpy_to _ _ _ _); [|done]. cbn [mbind option_bind].
    destruct (slot_store _ _ _) as [s|] eqn:E; [|done].
    cbn. intros [= <-]. by eapply slot_store_index.
  - unfold ring_buffer_get.
    destruct (rbd <? RING_BUFFER_MAX); [|cbn; by intros [= <-]].
    destruct (slot_load st rbd) as [rb|]; [|done]. cbn [mbind option_bind].
    destruct (_ =? 0); [|cbn; by intros [= <-]].
    destruct (rb_buf rb) as [b|]; [|done]. cbn [mbind option_bind].
    destruct (memcpy_from _ _ _ _); [|done]. cbn [mbind option_bind].
    destruct (slot_store _ _ _) as [s|] eqn:E; [|done].
    cbn. intros [= <-]. by eapply slot_store_index.
  - destruct (ring_buffer_count st rbd); [|done]. cbn. by intros [= <-].
  - unfold ring_buffer_clear.
    destruct (slot_load st rbd) as [rb|]; [|done]. cbn [mbind option_bind].
    destruct (rb_buf rb) as [b|]; [|done]. cbn [mbind option_bind].
    destruct (memset_zero _ _); [|done]. cbn [mbind option_bind].
    apply slot_store_index.
Qed.

Lemma rb_run_index (cs : list rb_call) : forall st st' : rb_state,
  RING_BUFFER_MAX <= index st -> rb_run cs st = Some st' ->
  index st' = index st.
Proof.
  induction cs as [|c cs IH]; intros st st' Hi; cbn [rb_run].
  - by intros [= <-].
  - destruct (rb_exec st c) as [s|] eqn:E; [|done]. cbn [mbind option_bind].
    intros Hr. apply rb_exec_index in E; [|done].
    rewrite <- E. apply IH; [lia|done].
Qed.

(** C10: after one successful [ring_buffer_init], whatever calls of the
    ring buffer interface follow, every further [ring_buffer_init] returns
    FAILURE and changes nothing, whatever its arguments. *)
Theorem ring_buffer_init_at_most_once (st st' st'' : rb_state)
    (rbd rbd' rbd2 : option Z) (attr attr2 : option rb_handle_t)
    (cs : list rb_call) :
  ring_buffer_init st rbd attr = Some (SUCCESS, rbd', st') ->
  rb_run cs st' = Some st'' ->
  ring_buffer_init st'' rbd2 attr2 = Some (FAILURE, rbd2, st'').
Proof.
  intros [_ Hi]%init_success_index Hrun.
  apply init_fails_when_used.
  rewrite (rb_run_index cs st' st''); [|unfold RING_BUFFER_MAX; lia|done].
  unfold RING_BUFFER_MAX. lia.
Qed.

(** The check [ring_buffer_init] applies to the capacity. *)
Lemma ring_buffer_init_fresh (rbd : Z) (e n : Z) (b : list byte) :
  0 < e ->
  ring_buffer_init rb_initial (Some rbd)
    (Some {| element_size := e; max_elements := n; buffer := Some b |})
  = if pow2_check n
    then Some (SUCCESS, Some 0,
               {| index := 1;
                  _rb := [ {| rb_element_size := e; rb_max_elements := n;
                              rb_buf := Some b; rb_head := 0;
                              rb_tail := 0 |} ] |})
    else Some (FAILURE, Some rbd, rb_initial).
Proof.
  intros He. unfold ring_buffer_init. cbn [index rb_initial buffer
    element_size max_elements Z.ltb Z.compare RING_BUFFER_MAX].
  destruct (Z.ltb_spec 0 e); [|lia]. cbn [andb].
  destruct (pow2_check n); done.
Qed.

Lemma ring_buffer_init_succeeds_iff (rbd : Z) (e n : Z) (b : list byte) :
  0 < e -> 0 <= n < 2 ^ 32 ->
  (exists rbd' st',
      ring_buffer_init rb_initial (Some rbd)
        (Some {| element_size := e; max_elements := n; buffer := Some b |})
      = Some (SUCCESS, rbd', st'))
  <-> n = 0 \/ power_of_two n.
Proof.
  intros He Hn. rewrite ring_buffer_init_fresh by done.
  destruct (Z.eq_dec n 0) as [->|Hne].
  - split; [by left|]. intros _. cbn. eauto.
  - pose proof (pow2_check_spec n) as Hspec.
    destruct (pow2_check n).
    + split; [|eauto]. intros _. right. apply Hspec; [lia|done].
    + split; [by intros (? & ? & [=])|].
      intros [?|Hp]; [done|]. apply Hspec in Hp; [done|lia].
Qed.

(** C7 (code): a capacity of 0, which is not a power of two, passes the
    check of [ring_buffer_init]: the call succeeds and takes the slot. *)
Theorem ring_buffer_init_accepts_zero_capacity :
  ~ power_of_two 0 /\
  ring_buffer_init rb_initial (Some 0)
    (Some {| element_size := 4; max_elements := 0; buffer := Some [] |})
  = Some (SUCCESS, Some 0,
          {| index := 1;
             _rb := [ {| rb_element_size := 4; rb_max_elements := 0;
                         rb_buf := Some []; rb_head := 0; rb_tail := 0 |} ] |}).
Proof. split; [apply zero_not_power_of_two | reflexivity]. Qed.

Lemma ring_buffer_init_16_17 :
  (ring_buffer_init rb_initial (Some 0)
     (Some {| element_size := 1; max_elements := 16;
              buffer := Some (replicate 16 Byte.x00) |})
   ≫= λ '(r, _, _), Some r) = Some SUCCESS /\
  ring_buffer_init rb_initial (Some 0)
    (Some {| element_size := 1; max_elements := 17;
             buffer := Some (replicate 17 Byte.x00) |})
  = Some (FAILURE, Some 0, rb_initial).
Proof. split; reflexivity. Qed.

Lemma sample_rb_wf : rb_wf sample_rb.
Proof.
  split; try (vm_compute; intuition congruence).
  eexists. split; reflexivity.
Defined.

Lemma ring_buffer_fifo_witness :
  exists st1 st2,
    put_all sample_state 0 sample_elements
      = Some (map (fun _ => SUCCESS) sample_elements, st1) /\
    get_all st1 0 sample_outs
      = Some (map (fun d => (SUCCESS, d)) sample_elements, st2) /\
    (forall o, ring_buffer_get st2 0 o = Some (FAILURE, o, st2)).
Proof.
  apply (ring_buffer_fifo sample_state sample_rb sample_elements sample_outs).
  - reflexivity.
  - exact sample_rb_wf.
  - reflexivity.
  - cbn. lia.
  - repeat constructor.
  - repeat constructor.
  - reflexivity.
Defined.

(** The same run, evaluated: the counters overflow from [2^32 - 1] to 2 and
    the elements come back in order. *)
Lemma ring_buffer_fifo_sample_run :
  (put_all sample_state 0 sample_elements
     ≫= λ '(rs, st1), get_all st1 0 sample_outs
     ≫= λ '(gs, st2), Some (rs, gs, _rb st2))
  = Some ([SUCCESS; SUCCESS; SUCCESS],
          [(SUCCESS, [Byte.x01; Byte.x02]); (SUCCESS, [Byte.x03; Byte.x04]);
           (SUCCESS, [Byte.x05; Byte.x06])],
          [ {| rb_element_size := 2; rb_max_elements := 4;
               rb_buf := Some [Byte.x03; Byte.x04; Byte.x05; Byte.x06;
                               Byte.x00; Byte.x00; Byte.x01; Byte.x02];
               rb_head := 2; rb_tail := 2 |} ]).
Proof. vm_compute. reflexivity. Qed.

Lemma put_get_full_empty_witness :
  (exists r st',
      ring_buffer_put sample_state 0 [Byte.x01; Byte.x02] = Some (r, st') /\
      (r = FAILURE <-> rb_count sample_rb = rb_max_elements sample_rb) /\
      (r = FAILURE -> st' = sample_state) /\
      (r <> FAILURE -> r = SUCCESS)) /\
  (exists r data' st',
      ring_buffer_get sample_state 0 [Byte.x01; Byte.x02]
        = Some (r, data', st') /\
      (r = FAILURE <-> rb_count sample_rb = 0) /\
      (r = FAILURE -> st' = sample_state /\ data' = [Byte.x01; Byte.x02]) /\
      (r <> FAILURE -> r = SUCCESS)).
Proof.
  apply (put_get_full_empty sample_state sample_rb [Byte.x01; Byte.x02]).
  - reflexivity.
  - exact sample_rb_wf.
  - cbn. lia.
Defined.

Lemma ring_buffer_init_at_most_once_witness :
  ring_buffer_init sample_state_fresh (Some 1) (Some sample_attr)
    = Some (FAILURE, Some 1, sample_state_fresh).
Proof.
  apply (ring_buffer_init_at_most_once rb_initial sample_state_fresh
           sample_state_fresh (Some 1) (Some 0) (Some 1)
           (Some sample_attr) (Some sample_attr)
           [rb_call_put 0 [Byte.x01; Byte.x02];
            rb_call_get 0 [Byte.x00; Byte.x00];
            rb_call_count 0; rb_call_clear 0]).
  - reflexivity.
  - reflexivity.
Defined.

(** ** Menu *)

Lemma on_rotation_depth (u : unsequenced) (st st' : ui_state) :
  on_rotation u st = Some st' ->
  menu_depth (menu st') = menu_depth (menu st).
Proof.
  unfold on_rotation.
  destruct (negb _); [|by intros [= <-]].
  destruct (show_values (menu st) =? 0); cbn [mbind option_bind];
    (destruct (menus_entry _ _); [|done]); cbn [mbind option_bind];
    by intros [= <-].
Qed.

Lemma confirm_value_menu (st : ui_state) : menu (confirm_value st) = menu st.
Proof.
  unfold confirm_value. repeat case_match; done.
Qed.

(** At depth 1 a button press leaves depth 1 only towards depth 2, unless
    the selected item is 15. *)
Lemma sub_item_press_pops_only_at_15 (u : unsequenced) (mode mode' : Z)
    (st st' : ui_state) :
  menu_depth (menu st) = 1 ->
  item_selected (menu st) <> MAX_ITEM_SIZE - 1 ->
  display_menu u 1 mode st = Some (mode', st') ->
  menu_depth (menu st') = 1 \/ menu_depth (menu st') = 2.
Proof.
  intros Hd Hi. unfold display_menu. cbn [Z.eqb negb].
  set (st1 := set_menu _ _).
  assert (Hd1 : menu_depth (menu st1) = 1) by done.
  assert (Hi1 : item_selected (menu st1) <> 15) by done.
  clearbody st1.
  destruct (on_button mode st1) as [m st2] eqn:Hb.
  assert (Hd2 : menu_depth (menu st2) = 1 \/ menu_depth (menu st2) = 2).
  { unfold on_button in Hb. rewrite Hd1 in Hb. cbn [Z.eqb] in Hb.
    change (to_uint8 ARRAY_SIZE_menus_s_i - 1) with 15 in Hb.
    destruct (Z.eqb_spec (item_selected (menu st1)) 15); [done|].
    destruct (item_selected (menu st1) =? 0); injection Hb as <- <-.
    - by left.
    - right. done. }
  destruct (on_rotation u st2) as [st3|] eqn:Hr; [|done].
  cbn [mbind option_bind]. intros [= <- <-]. cbn [menu set_menu menu_depth].
  by rewrite (on_rotation_depth u st2 st3).
Qed.

(** When the assignment stores the old item last, the selection never
    leaves entry 0. *)
Lemma on_rotation_item_assignment (st st' : ui_state) :
  on_rotation AssignmentLast st = Some st' ->
  item_selected (menu st) = 0 -> item_selected (menu st') = 0.
Proof.
  unfold on_rotation.
  destruct (negb _); [|by intros [= <-]].
  destruct (show_values (menu st) =? 0); cbn [mbind option_bind];
    (destruct (menus_entry _ _); [|done]); cbn [mbind option_bind];
    intros [= <-] Hi; cbn; by rewrite ?Hi.
Qed.

Lemma assignment_last_item_stuck (inputs : list (Z * Z)) :
  forall (mode mode' : Z) (st st' : ui_state),
  item_selected (menu st) = 0 ->
  menu_run AssignmentLast inputs mode st = Some (mode', st') ->
  item_selected (menu st') = 0.
Proof.
  induction inputs as [|[v btn] rest IH]; intros mode mode' st st' Hi;
    cbn [menu_run].
  - by intros [= _ <-].
  - destruct (display_menu _ _ _ _) as [[m s]|] eqn:Hd; [|done].
    cbn [mbind option_bind]. apply IH.
    unfold display_menu in Hd.
    set (st1 := set_menu _ _) in Hd.
    assert (Hi1 : item_selected (menu st1) = 0) by done.
    clearbody st1.
    destruct (if negb (btn =? 0) then _ else _) as [m2 st2] eqn:Hb.
    assert (Hi2 : item_selected (menu st2) = 0).
    { destruct (negb (btn =? 0)); [|by injection Hb as _ <-].
      unfold on_button in Hb. rewrite Hi1 in Hb.
      change (0 =? to_uint8 ARRAY_SIZE_menus_s_i - 1) with false in Hb.
      cbn [Z.eqb] in Hb.
      destruct (menu_depth (menu st1) =? 0);
        [by injection Hb as _ <-|].
      destruct (menu_depth (menu st1) =? 1);
        [by injection Hb as _ <-|].
      destruct (menu_depth (menu st1) =? 2); injection Hb as _ <-; [|done].
      cbn. by rewrite confirm_value_menu. }
    destruct (on_rotation AssignmentLast st2) as [st3|] eqn:Hr; [|done].
    cbn [mbind option_bind] in Hd. injection Hd as _ <-.
    cbn [menu set_menu item_selected].
    by apply (on_rotation_item_assignment st2 st3).
Qed.

Lemma on_rotation_item_range (u : unsequenced) (st st' : ui_state) :
  on_rotation u st = Some st' ->
  0 <= item_selected (menu st) < MAX_ITEM_COUNT ->
  0 <= item_selected (menu st') < MAX_ITEM_COUNT.
Proof.
  unfold on_rotation.
  destruct (negb _); [|by intros [= <-]].
  destruct (show_values (menu st) =? 0); cbn [mbind option_bind];
    (destruct (menus_entry _ _); [|done]); cbn [mbind option_bind];
    intros [= <-] Hi; cbn [menu emit set_menu item_selected]; [|done].
  apply Z.mod_pos_bound. done.
Qed.

Lemma on_button_item_range (mode mode' : Z) (st st' : ui_state) :
  on_button mode st = (mode', st') ->
  0 <= item_selected (menu st) < MAX_ITEM_COUNT ->
  0 <= item_selected (menu st') < MAX_ITEM_COUNT.
Proof.
  unfold on_button. intros Hb Hi.
  destruct (menu_depth (menu st) =? 0); [by injection Hb as _ <-|].
  destruct (menu_depth (menu st) =? 1).
  - destruct (item_selected (menu st) =? _);
      [by injection Hb as _ <-|].
    destruct (item_selected (menu st) =? 0); by injection Hb as _ <-.
  - destruct (menu_depth (menu st) =? 2); injection Hb as _ <-; [|done].
    cbn. by rewrite confirm_value_menu.
Qed.

Lemma display_menu_item_range (u : unsequenced) (btn mode mode' : Z)
    (st st' : ui_state) :
  display_menu u btn mode st = Some (mode', st') ->
  0 <= item_selected (menu st) < MAX_ITEM_COUNT ->
  0 <= item_selected (menu st') < MAX_ITEM_COUNT.
Proof.
  unfold display_menu. set (st1 := set_menu _ _). intros Hd Hi.
  assert (Hi1 : 0 <= item_selected (menu st1) < MAX_ITEM_COUNT) by done.
  clearbody st1.
  destruct (if negb (btn =? 0) then _ else _) as [m2 st2] eqn:Hb.
  assert (Hi2 : 0 <= item_selected (menu st2) < MAX_ITEM_COUNT).
  { destruct (negb (btn =? 0)); [|by injection Hb as _ <-].
    by eapply on_button_item_range. }
  destruct (on_rotation u st2) as [st3|] eqn:Hr; [|done].
  cbn [mbind option_bind] in Hd. injection Hd as _ <-.
  cbn [menu set_menu item_selected].
  by eapply on_rotation_item_range.
Qed.

(** From the initial state the selected item stays below [MAX_ITEM_COUNT];
    the value [MAX_ITEM_SIZE - 1] the "go back" test compares it with is
    never reached. *)
Lemma menu_run_item_range (u : unsequenced) (inputs : list (Z * Z)) :
  forall (mode mode' : Z) (st st' : ui_state),
  0 <= item_selected (menu st) < MAX_ITEM_COUNT ->
  menu_run u inputs mode st = Some (mode', st') ->
  0 <= item_selected (menu st') < MAX_ITEM_COUNT.
Proof.
  induction inputs as [|[v btn] rest IH]; intros mode mode' st st' Hi;
    cbn [menu_run].
  - by intros [= _ <-].
  - destruct (display_menu _ _ _ _) as [[m s]|] eqn:Hd; [|done].
    cbn [mbind option_bind]. apply IH.
    by eapply display_menu_item_range.
Qed.

(** No reachable state at depth 1 is popped to depth 0 by a button
    press. *)
Lemma reachable_sub_item_never_pops (u : unsequenced)
    (inputs : list (Z * Z)) (mode mode' : Z) (st st' : ui_state) :
  menu_run u inputs FXNONE ui_initial = Some (mode, st) ->
  menu_depth (menu st) = 1 ->
  display_menu u 1 mode st = Some (mode', st') ->
  menu_depth (menu st') <> 0.
Proof.
  intros Hrun Hd Hp.
  apply menu_run_item_range in Hrun; [|done].
  destruct (sub_item_press_pops_only_at_15 u mode mode' st st') as [H|H];
    try done; [|lia|lia].
  unfold MAX_ITEM_SIZE, MAX_ITEM_COUNT in *. lia.
Qed.

(** ** Ring buffer: refinement of a bounded queue, count, clear *)

Lemma queue_refinement_step (st : rb_state) (rb : ring_buffer)
    (c : queue_call) :
  slot_load st 0 = Some rb -> rb_wf rb ->
  rb_element_size rb <= Z.of_nat (length (queue_call_data c)) ->
  exists rb',
    rb_step st c
      = (let '(r, d, _) :=
           queue_step (rb_max_elements rb) (Z.to_nat (rb_element_size rb))
             (rb_contents rb) c in
         Some (r, d, with_slot st rb')) /\
    rb_wf rb' /\
    rb_element_size rb' = rb_element_size rb /\
    rb_max_elements rb' = rb_max_elements rb /\
    rb_contents rb'
      = (queue_step (rb_max_elements rb) (Z.to_nat (rb_element_size rb))
           (rb_contents rb) c).2.
Proof.
  intros Hs Hwf Hd.
  pose proof (count_range rb Hwf) as Hr.
  pose proof (length_contents rb Hwf) as Hlen.
  destruct c as [d|out]; cbn [queue_call_data] in Hd;
    cbn [rb_step queue_step].
  - rewrite Hlen, Z2Nat.id by lia.
    destruct (Z.ltb_spec (rb_count rb) (rb_max_elements rb)) as [Hlt|Hge].
    + exists (rb_after_put rb d).
      rewrite (put_not_full st rb) by (done || lia). cbn.
      split; [done|]. split; [apply wf_after_put; (done || lia)|].
      split; [done|]. split; [done|].
      apply contents_after_put; (done || lia).
    + exists rb. rewrite (put_full st rb) by (done || lia). cbn.
      rewrite with_slot_id by done. done.
  - destruct (rb_contents rb) as [|x q'] eqn:Hq.
    + exists rb. rewrite (get_empty st rb) by (done || (cbn in Hlen; lia)).
      rewrite with_slot_id by done. done.
    + assert (Hne : rb_count rb <> 0) by (cbn [length] in Hlen; lia).
      exists (rb_after_get rb).
      rewrite (get_not_empty st rb) by done.
      pose proof (contents_after_get rb Hwf Hne) as Hc.
      rewrite Hq in Hc. injection Hc as -> ->.
      split; [done|]. split; [by apply wf_after_get|]. done.
Qed.

(** X1: on an initialised buffer, any interleaving of [ring_buffer_put] and
    [ring_buffer_get] calls on designator 0 answers exactly as a FIFO queue
    bounded by [max_elements] does: the same return codes and the same
    contents of the caller's objects, call by call, and the buffer holds the
    queue's final contents. The caller's objects must have at least
    [element_size] bytes. *)
Theorem ring_buffer_refines_queue (cs : list queue_call) :
  forall (st : rb_state) (rb : ring_buffer),
  slot_load st 0 = Some rb -> rb_wf rb ->
  Forall (fun c => rb_element_size rb
                     <= Z.of_nat (length (queue_call_data c))) cs ->
  exists rb',
    rb_steps st cs
      = Some ((queue_run (rb_max_elements rb)
                 (Z.to_nat (rb_element_size rb)) (rb_contents rb) cs).1,
              with_slot st rb') /\
    rb_wf rb' /\
    rb_contents rb'
      = (queue_run (rb_max_elements rb) (Z.to_nat (rb_element_size rb))
           (rb_contents rb) cs).2.
Proof.
  induction cs as [|c cs IH]; intros st rb Hs Hwf Hcs.
  - exists rb. cbn. rewrite with_slot_id by done. done.
  - apply Forall_cons in Hcs as [Hc Hcs].
    destruct (queue_refinement_step st rb c Hs Hwf Hc)
      as (rb1 & Hstep & Hwf1 & HE1 & HN1 & Hq1).
    destruct (IH (with_slot st rb1) rb1) as (rb2 & Hsteps & Hwf2 & Hq2).
    + by eapply slot_load_with_slot.
    + done.
    + by rewrite HE1.
    + exists rb2. cbn [rb_steps queue_run]. rewrite Hstep.
      rewrite HE1, HN1, Hq1 in Hsteps, Hq2.
      destruct (queue_step _ _ _ c) as [[r d] q1]. cbn [snd] in *.
      cbn [mbind option_bind]. rewrite Hsteps.
      destruct (queue_run _ _ q1 cs) as [rs q2]. cbn.
      rewrite with_slot_twice. done.
Qed.

Lemma table_ok_slot (st : rb_state) (rb : ring_buffer) :
  _rb st = [rb] -> slot_load st 0 = Some rb /\
  forall i, i <> 0 -> slot_load st i = None.
Proof.
  intros Ht. unfold slot_load. rewrite Ht. split; [done|].
  intros i Hi. destruct (Z.leb_spec 0 i); [|done].
  destruct (Z.to_nat i) eqn:E; [lia|done].
Qed.

Lemma table_ok_with_slot (st : rb_state) (rb rb' : ring_buffer) :
  _rb st = [rb] -> _rb (with_slot st rb') = [rb'].
Proof. intros Ht. unfold with_slot. cbn. by rewrite Ht. Qed.

Lemma clear_initialised (st : rb_state) (rb : ring_buffer) :
  slot_load st 0 = Some rb -> rb_wf rb ->
  ring_buffer_clear st 0 = Some (with_slot st (rb_after_clear rb)).
Proof.
  intros Hs Hwf. destruct (wf_storage rb Hwf) as (b & Hb & Hlen).
  pose proof (wf_element_size rb Hwf). pose proof (wf_max_elements rb Hwf).
  pose proof (wf_addressable rb Hwf).
  unfold ring_buffer_clear. rewrite Hs. cbn [mbind option_bind].
  rewrite Hb. cbn [mbind option_bind].
  rewrite to_size_t_small by nia. unfold memset_zero.
  rewrite <- Hlen. rewrite Z.leb_refl.
  destruct (Z.leb_spec 0 (Z.of_nat (length b))); [|lia]. cbn [andb].
  cbn [mbind option_bind]. rewrite (slot_store_0 st rb) by done.
  unfold rb_after_clear. rewrite <- Hlen. rewrite Nat2Z.id.
  rewrite drop_all, app_nil_r. done.
Qed.

Lemma wf_after_clear (rb : ring_buffer) :
  rb_wf rb -> rb_wf (rb_after_clear rb).
Proof.
  intros Hwf. pose proof (wf_element_size rb Hwf).
  pose proof (wf_max_elements rb Hwf).
  destruct Hwf as [? ? ? ? ? ? ? ?].
  split; cbn [rb_after_clear rb_element_size rb_max_elements rb_buf rb_head
              rb_tail]; try done; try lia.
  - eexists. split; [done|]. rewrite length_replicate.
    apply Z2Nat.id. nia.
  - unfold rb_count. cbn [rb_after_clear rb_head rb_tail].
    change (to_size_t (0 - 0)) with 0. lia.
Qed.

(** X2: [ring_buffer_clear] on an initialised buffer zeroes all of the
    storage and leaves an initialised, empty buffer: the count is 0 and the
    next [ring_buffer_get] fails and changes nothing. *)
Theorem ring_buffer_clear_empties (st : rb_state) (rb : ring_buffer)
    (data : list byte) :
  slot_load st 0 = Some rb -> rb_wf rb ->
  exists st' rb',
    ring_buffer_clear st 0 = Some st' /\
    slot_load st' 0 = Some rb' /\ rb_wf rb' /\
    rb_contents rb' = [] /\
    rb_buf rb'
      = Some (replicate (Z.to_nat (rb_max_elements rb * rb_element_size rb))
                Byte.x00) /\
    ring_buffer_count st' 0 = Some 0 /\
    ring_buffer_get st' 0 data = Some (FAILURE, data, st').
Proof.
  intros Hs Hwf. exists (with_slot st (rb_after_clear rb)), (rb_after_clear rb).
  assert (Hs' : slot_load (with_slot st (rb_after_clear rb)) 0
                = Some (rb_after_clear rb)) by (by eapply slot_load_with_slot).
  split; [by apply clear_initialised|]. split; [done|].
  split; [by apply wf_after_clear|]. split; [done|]. split; [done|].
  split.
  - unfold ring_buffer_count. rewrite Hs'. done.
  - by apply (get_empty _ (rb_after_clear rb)).
Qed.

(** X3: for a capacity below 2^31, [ring_buffer_count] returns the number
    of queued elements, which lies between 0 and [max_elements]; this holds
    across the overflow of the [head] and [tail] counters. *)
Theorem ring_buffer_count_is_occupancy (st : rb_state) (rb : ring_buffer) :
  slot_load st 0 = Some rb -> rb_wf rb -> rb_max_elements rb < 2 ^ 31 ->
  ring_buffer_count st 0 = Some (Z.of_nat (length (rb_contents rb))) /\
  0 <= Z.of_nat (length (rb_contents rb)) <= rb_max_elements rb.
Proof.
  intros Hs Hwf HN. pose proof (count_range rb Hwf) as Hr.
  rewrite length_contents, Z2Nat.id by (done || lia).
  split; [|done]. unfold ring_buffer_count. rewrite Hs.
  cbn [mbind option_bind]. fold (rb_count rb). f_equal.
  unfold to_int, to_signed, wrap.
  rewrite Z.mod_small by lia.
  destruct (Z.ltb_spec (rb_count rb) (2 ^ (32 - 1))); [done|].
  change (2 ^ (32 - 1)) with (2 ^ 31) in *. lia.
Qed.

Lemma rb_exec_table_ok (st st' : rb_state) (c : rb_call) :
  rb_table_ok st -> rb_exec st c = Some st' -> rb_table_ok st'.
Proof.
  intros (Hi & rb & Ht & Hwf) He.
  destruct (table_ok_slot st rb Ht) as [Hs Hnone].
  assert (Hkeep : forall rb', rb_wf rb' ->
            rb_table_ok (with_slot st rb')).
  { intros rb' Hwf'. split; [done|]. exists rb'. split; [|done].
    by eapply table_ok_with_slot. }
  destruct c as [rbd attr|rbd data|rbd data|rbd|rbd]; cbn [rb_exec] in He.
  - rewrite init_fails_when_used in He by done. cbn in He.
    injection He as <-. split; [done|]. by exists rb.
  - destruct (Z.ltb_spec rbd RING_BUFFER_MAX) as [Hlt|Hge].
    + destruct (Z.eq_dec rbd 0) as [->|Hne].
      * destruct (Z.eq_dec (rb_count rb) (rb_max_elements rb)) as [Hc|Hc].
        -- rewrite (put_full st rb) in He by done. cbn in He.
           injection He as <-. split; [done|]. by exists rb.
        -- destruct (Z_le_gt_dec (rb_element_size rb)
                       (Z.of_nat (length data))) as [Hd|Hd].
           ++ rewrite (put_not_full st rb) in He by done. cbn in He.
              injection He as <-. apply Hkeep. by apply wf_after_put.
           ++ exfalso. unfold ring_buffer_put in He.
              cbn [Z.ltb Z.compare RING_BUFFER_MAX] in He. rewrite Hs in He.
              cbn [mbind option_bind] in He. unfold _ring_buffer_full in He.
              fold (rb_count rb) in He.
              destruct (Z.eqb_spec (rb_count rb) (rb_max_elements rb));
                [done|]. cbn [Z.eqb] in He.
              destruct (wf_storage rb Hwf) as (b & Hb & _). rewrite Hb in He.
              cbn [mbind option_bind] in He. unfold memcpy_to in He.
              destruct (Z.leb_spec (rb_element_size rb)
                          (Z.of_nat (length data))); [lia|].
              rewrite andb_false_r in He. done.
      * unfold ring_buffer_put in He.
        rewrite (proj2 (Z.ltb_lt _ _) Hlt) in He.
        rewrite Hnone in He by done. done.
    + destruct (put_get_invalid_designator st rbd data Hge) as [Hp _].
      rewrite Hp in He. cbn in He. injection He as <-.
      split; [done|]. by exists rb.
  - destruct (Z.ltb_spec rbd RING_BUFFER_MAX) as [Hlt|Hge].
    + destruct (Z.eq_dec rbd 0) as [->|Hne].
      * destruct (Z.eq_dec (rb_count rb) 0) as [Hc|Hc].
        -- rewrite (get_empty st rb) in He by done. cbn in He.
           injection He as <-. split; [done|]. by exists rb.
        -- destruct (Z_le_gt_dec (rb_element_size rb)
                       (Z.of_nat (length data))) as [Hd|Hd].
           ++ rewrite (get_not_empty st rb) in He by done. cbn in He.
              injection He as <-. apply Hkeep. by apply wf_after_get.
           ++ exfalso. unfold ring_buffer_get in He.
              cbn [Z.ltb Z.compare RING_BUFFER_MAX] in He. rewrite Hs in He.
              cbn [mbind option_bind] in He. unfold _ring_buffer_empty in He.
              fold (rb_count rb) in He.
              destruct (Z.eqb_spec (rb_count rb) 0); [done|].
              cbn [Z.eqb] in He.
              destruct (wf_storage rb Hwf) as (b & Hb & _). rewrite Hb in He.
              cbn [mbind option_bind] in He. unfold memcpy_from in He.
              destruct (Z.leb_spec (rb_element_size rb)
                          (Z.of_nat (length data))); [lia|].
              rewrite andb_false_r in He. done.
      * unfold ring_buffer_get in He.
        rewrite (proj2 (Z.ltb_lt _ _) Hlt) in He.
        rewrite Hnone in He by done. done.
    + destruct (put_get_invalid_designator st rbd data Hge) as [_ Hg].
      rewrite Hg in He. cbn in He. injection He as <-.
      split; [done|]. by exists rb.
  - destruct (ring_buffer_count st rbd); [|done]. cbn in He.
    injection He as <-. split; [done|]. by exists rb.
  - destruct (Z.eq_dec rbd 0) as [->|Hne].
    + rewrite (clear_initialised st rb) in He by done.
      injection He as <-. apply Hkeep. by apply wf_after_clear.
    + unfold ring_buffer_clear in He. rewrite Hnone in He by done. done.
Qed.

(** X4: once the table holds one initialised buffer and the slot counter is
    used up, every sequence of interface calls that stays defined, with any
    arguments, leaves it so: the slot still holds a buffer whose attributes
    pass the checks of [ring_buffer_init], whose storage has
    [max_elements * element_size] bytes and whose counters are at most a
    capacity apart. *)
Theorem ring_buffer_invariant (cs : list rb_call) :
  forall st st' : rb_state,
  rb_table_ok st -> rb_run cs st = Some st' -> rb_table_ok st'.
Proof.
  induction cs as [|c cs IH]; intros st st' Hok; cbn [rb_run].
  - by intros [= <-].
  - destruct (rb_exec st c) as [s|] eqn:E; [|done]. cbn [mbind option_bind].
    apply IH. by eapply rb_exec_table_ok.
Qed.

Lemma init_table_ok (rbd : Z) (e n : Z) (b : list byte)
    (rbd' : option Z) (st' : rb_state) :
  0 <= n < 2 ^ 32 -> n * e < 2 ^ 32 -> Z.of_nat (length b) = n * e ->
  ring_buffer_init rb_initial (Some rbd)
    (Some {| element_size := e; max_elements := n; buffer := Some b |})
  = Some (SUCCESS, rbd', st') ->
  rb_table_ok st'.
Proof.
  intros Hn Hne Hlen Hinit.
  pose proof (init_success_index _ _ _ _ _ Hinit) as [_ Hi].
  pose proof (init_establishes_wf rbd e n b rbd' st' Hn Hne Hlen Hinit)
    as (rb & Hs & Hwf & _).
  split; [unfold RING_BUFFER_MAX; lia|]. exists rb. split; [|done].
  unfold ring_buffer_init in Hinit.
  cbn [index rb_initial buffer element_size max_elements Z.ltb Z.compare
       RING_BUFFER_MAX] in Hinit.
  destruct (0 <? e); [|done]. destruct (pow2_check n); [|done].
  cbn in Hinit. injection Hinit as _ <-. cbn in *. by injection Hs as ->.
Qed.

Lemma sample_rb_used_wf : rb_wf sample_rb_used.
Proof.
  split; try (vm_compute; intuition congruence).
  eexists. split; reflexivity.
Defined.

Lemma sample_fresh_table_ok : rb_table_ok sample_state_fresh.
Proof.
  split; [vm_compute; congruence|]. eexists. split; [reflexivity|].
  split; try (vm_compute; intuition congruence).
  eexists. split; reflexivity.
Defined.

Lemma ring_buffer_refines_queue_witness :
  exists rb',
    rb_steps sample_state sample_calls
      = Some ((queue_run (rb_max_elements sample_rb)
                 (Z.to_nat (rb_element_size sample_rb))
                 (rb_contents sample_rb) sample_calls).1,
              with_slot sample_state rb') /\
    rb_wf rb' /\
    rb_contents rb'
      = (queue_run (rb_max_elements sample_rb)
           (Z.to_nat (rb_element_size sample_rb))
           (rb_contents sample_rb) sample_calls).2.
Proof.
  apply (ring_buffer_refines_queue sample_calls sample_state sample_rb).
  - reflexivity.
  - exact sample_rb_wf.
  - repeat (constructor; [cbn; lia|]). constructor.
Defined.

(** The same run, evaluated: the second get finds the queue empty, the
    fifth put in a row finds it full, and the first element put after the
    overflow of the counters comes back first. *)
Lemma ring_buffer_queue_sample_run :
  (rb_steps sample_state sample_calls ≫= λ '(rs, _), Some (map fst rs))
  = Some [SUCCESS; SUCCESS; FAILURE; SUCCESS; SUCCESS; SUCCESS; SUCCESS;
          FAILURE; SUCCESS].
Proof. vm_compute. reflexivity. Qed.

Lemma ring_buffer_clear_empties_witness :
  exists st' rb',
    ring_buffer_clear sample_state_used 0 = Some st' /\
    slot_load st' 0 = Some rb' /\ rb_wf rb' /\
    rb_contents rb' = [] /\
    rb_buf rb'
      = Some (replicate
                (Z.to_nat (rb_max_elements sample_rb_used
                           * rb_element_size sample_rb_used))
                Byte.x00) /\
    ring_buffer_count st' 0 = Some 0 /\
    ring_buffer_get st' 0 [Byte.xff; Byte.xff]
      = Some (FAILURE, [Byte.xff; Byte.xff], st').
Proof.
  apply (ring_buffer_clear_empties sample_state_used sample_rb_used
           [Byte.xff; Byte.xff]).
  - reflexivity.
  - exact sample_rb_used_wf.
Defined.

Lemma ring_buffer_count_is_occupancy_witness :
  ring_buffer_count sample_state_used 0
    = Some (Z.of_nat (length (rb_contents sample_rb_used))) /\
  0 <= Z.of_nat (length (rb_contents sample_rb_used))
    <= rb_max_elements sample_rb_used.
Proof.
  apply (ring_buffer_count_is_occupancy sample_state_used sample_rb_used).
  - reflexivity.
  - exact sample_rb_used_wf.
  - cbn. lia.
Defined.

Lemma ring_buffer_invariant_witness :
  rb_table_ok
    {| index := 1;
       _rb := [ {| rb_element_size := 2; rb_max_elements := 4;
                   rb_buf := Some (replicate 8 Byte.x00);
                   rb_head := 0; rb_tail := 0 |} ] |}.
Proof.
  apply (ring_buffer_invariant sample_rb_calls sample_state_fresh).
  - exact sample_fresh_table_ok.
  - reflexivity.
Defined.

(** ** Delay line *)

Lemma delay_fill_no_effect (n : nat) (s : rb_state) : delay_fill n s = Some s.
Proof.
  induction n as [|n IH]; [done|]. cbn [delay_fill].
  destruct (put_get_invalid_designator s FXDELAY zero_sample) as [-> _];
    [done|]. cbn [mbind option_bind]. done.
Qed.

Lemma length_delay_buffer :
  Z.of_nat (length delay_buffer) = delay_buffer_elements * sizeof_float32_t.
Proof.
  unfold delay_buffer. rewrite length_replicate. by apply Z2Nat.id.
Qed.

(** The one successful way through [delay_init] from the initial state. *)
Lemma delay_init_initial_success (h h' : delay_handle_t) (inb outb : pointer)
    (d b f : float32_t) (st' : fx_state) :
  delay_init fx_initial h inb outb d b f = Some (0, st', h') ->
  st' = {| rbs := {| index := 1;
                     _rb := [ {| rb_element_size := sizeof_float32_t;
                                 rb_max_elements := delay_buffer_elements;
                                 rb_buf := Some delay_buffer;
                                 rb_head := 0; rb_tail := 0 |} ] |};
           _delay_rb := {| element_size := sizeof_float32_t;
                           max_elements := delay_buffer_elements;
                           buffer := Some delay_buffer |};
           delay_rbd := 0 |}.
Proof.
  unfold delay_init. generalize delay_buffer. intros buf.
  destruct (is_null inb || is_null outb); [done|].
  destruct (_ || gt d (f32_of_Z MAX_DELAY_TIME)); [done|].
  cbn [delay_rbd fx_initial rbs Z.eqb FXDELAY Pos.eqb].
  rewrite ring_buffer_init_fresh by (unfold sizeof_float32_t; lia).
  change (pow2_check delay_buffer_elements) with true.
  cbn [mbind option_bind default to_int8].
  change (negb (to_int8 SUCCESS =? 0)) with false. cbn match.
  destruct (to_uint16_t _) as [n|]; cbn [mbind option_bind]; [|done].
  rewrite delay_fill_no_effect. cbn [mbind option_bind].
  intros [= <- _]. reflexivity.
Qed.

(** X5: a successful first [delay_init] queues nothing: the loop that is to
    pre-fill the delay line calls [ring_buffer_put] with FXDELAY (1), which
    is not a valid designator, so the delay line in slot 0 is initialised
    and empty whatever the delay time. *)
Theorem delay_init_never_fills (h h' : delay_handle_t) (inb outb : pointer)
    (d b f : float32_t) (st' : fx_state) :
  delay_init fx_initial h inb outb d b f = Some (0, st', h') ->
  delay_rbd st' = 0 /\
  exists rb,
    slot_load (rbs st') 0 = Some rb /\ rb_wf rb /\
    rb_max_elements rb = delay_buffer_elements /\
    rb_contents rb = [] /\
    ring_buffer_count (rbs st') 0 = Some 0.
Proof.
  intros ->%delay_init_initial_success.
  pose proof length_delay_buffer as Hlen. revert Hlen.
  generalize delay_buffer. intros buf Hlen.
  cbn [delay_rbd rbs]. split; [reflexivity|].
  eexists. split; [reflexivity|]. split; [|by repeat split].
  split; cbn [rb_element_size rb_max_elements rb_buf rb_head rb_tail];
    try (by vm_compute).
  by exists buf.
Qed.

Lemma run_delay_loop_dry (h : delay_handle_t) (src : list float32_t)
    (s : rb_state) :
  run_delay_loop h src s
    = Some (map (fun x => delay_mix_sample h x f32_zero) src, s).
Proof.
  induction src as [|x rest IH]; [done|]. cbn [run_delay_loop].
  destruct (put_get_invalid_designator s FXDELAY
              (f32_bytes (f32_mul x (delay_feedback h)))) as [-> _]; [done|].
  cbn [mbind option_bind].
  destruct (put_get_invalid_designator s FXDELAY (f32_bytes f32_zero))
    as [_ ->]; [done|].
  cbn [mbind option_bind].
  change (f32_of_bytes (f32_bytes f32_zero)) with (Some f32_zero).
  cbn [mbind option_bind]. rewrite IH. done.
Qed.

(** X6: [run_delay] writes [(1 - blend) * src[i] + blend * 0.0f] to the
    first PING_PONG_BUFFER_SIZE samples of [dst] and leaves the ring buffer
    module unchanged, in every module state: its [ring_buffer_put] and
    [ring_buffer_get] calls pass FXDELAY and fail, so [delayed] keeps its
    initial value. *)
Theorem run_delay_is_dry_mix (st : fx_state) (h : delay_handle_t)
    (src dst : list float32_t) :
  (Z.to_nat PING_PONG_BUFFER_SIZE <= length src)%nat ->
  (Z.to_nat PING_PONG_BUFFER_SIZE <= length dst)%nat ->
  run_delay st h src dst
    = Some (map (fun x => delay_mix_sample h x f32_zero)
                (take (Z.to_nat PING_PONG_BUFFER_SIZE) src)
            ++ drop (Z.to_nat PING_PONG_BUFFER_SIZE) dst, st).
Proof.
  intros Hs Hd. unfold run_delay.
  destruct (Nat.leb_spec (Z.to_nat PING_PONG_BUFFER_SIZE) (length src));
    [|lia].
  destruct (Nat.leb_spec (Z.to_nat PING_PONG_BUFFER_SIZE) (length dst));
    [|lia].
  cbn [andb]. rewrite run_delay_loop_dry. cbn [mbind option_bind].
  by destruct st.
Qed.

(** X7: after a successful first [delay_init], a second call with non-null
    buffers and accepted parameters has no defined result: [delay_rbd] is 0
    by then, so the call takes the branch [ring_buffer_clear(FXDELAY)],
    which indexes the one-slot table at 1. *)
Theorem delay_init_again_undefined (h1 h1' h2 : delay_handle_t)
    (in1 out1 : pointer) (in2 out2 : string)
    (d1 b1 f1 d2 b2 f2 : float32_t) (st1 : fx_state) :
  delay_init fx_initial h1 in1 out1 d1 b1 f1 = Some (0, st1, h1') ->
  is_nan d2 = false -> is_nan b2 = false -> is_nan f2 = false ->
  delay_params_accepted d2 b2 f2 ->
  delay_init st1 h2 (Some in2) (Some out2) d2 b2 f2 = None.
Proof.
  intros H1 Hd Hb Hf Hacc.
  apply delay_init_initial_success in H1. subst st1.
  unfold delay_init. generalize delay_buffer. intros buf.
  cbn [is_null orb].
  rewrite (proj2 (delay_cond_accepted d2 b2 f2 Hd Hb Hf) Hacc).
  reflexivity.
Qed.

(** The [delay_init] call of [main], with the module state it leaves. *)
Lemma delay_init_main_state :
  delay_init fx_initial delay_handle_zero (Some "left_in"%string)
    (Some "left_out"%string) (f32_of_Z 400) f32_0_4 f32_0_4
  = Some (0, fx_after_init, delay_handle_main).
Proof.
  pose proof delay_init_main_call as H.
  destruct (delay_init _ _ _ _ _ _ _) as [[[c st'] h']|] eqn:E; [|done].
  cbn [mbind option_bind] in H. injection H as -> ->.
  apply delay_init_initial_success in E. by subst st'.
Qed.

Lemma delay_init_never_fills_witness :
  delay_rbd fx_after_init = 0 /\
  exists rb,
    slot_load (rbs fx_after_init) 0 = Some rb /\ rb_wf rb /\
    rb_max_elements rb = delay_buffer_elements /\
    rb_contents rb = [] /\
    ring_buffer_count (rbs fx_after_init) 0 = Some 0.
Proof.
  apply (delay_init_never_fills delay_handle_zero delay_handle_main
           (Some "left_in"%string) (Some "left_out"%string)
           (f32_of_Z 400) f32_0_4 f32_0_4 fx_after_init).
  exact delay_init_main_state.
Defined.

Lemma run_delay_is_dry_mix_witness :
  run_delay fx_after_init delay_handle_main
    (replicate 64 (f32_of_Z 1000)) (replicate 64 f32_zero)
  = Some (map (fun x => delay_mix_sample delay_handle_main x f32_zero)
              (take (Z.to_nat PING_PONG_BUFFER_SIZE)
                    (replicate 64 (f32_of_Z 1000)))
          ++ drop (Z.to_nat PING_PONG_BUFFER_SIZE) (replicate 64 f32_zero),
          fx_after_init).
Proof.
  apply (run_delay_is_dry_mix fx_after_init delay_handle_main
           (replicate 64 (f32_of_Z 1000)) (replicate 64 f32_zero)).
  - vm_compute. lia.
  - vm_compute. lia.
Defined.

Lemma delay_init_again_undefined_witness :
  delay_init fx_after_init delay_handle_main (Some "left_in"%string)
    (Some "left_out"%string) (f32_of_Z 250) f32_0_5 f32_0_5
  = None.
Proof.
  apply (delay_init_again_undefined delay_handle_zero delay_handle_main
           delay_handle_main (Some "left_in"%string)
           (Some "left_out"%string) "left_in" "left_out"
           (f32_of_Z 400) f32_0_4 f32_0_4
           (f32_of_Z 250) f32_0_5 f32_0_5 fx_after_init).
  - exact delay_init_main_state.
  - reflexivity.
  - reflexivity.
  - reflexivity.
  - vm_compute. intuition congruence.
Defined.

(** ** Initialisation and update of the other effects *)

Lemma lt_negb_ge (x y : spec_float) :
  is_nan x = false -> is_nan y = false -> lt x y = negb (ge x y).
Proof. intros. rewrite ge_negb_lt by done. by rewrite negb_involutive. Qed.

(** X8: a successful [fuzz_init] stores [gain] in both the gain and the mix
    field; the [mix] argument is only range-checked. For a gain of 1 or more
    the stored mix is a value [fuzz_update] itself rejects. *)
Theorem fuzz_init_stores_gain_as_mix (h h' : fuzz_handle_t)
    (inb outb : pointer) (gain mix : float32_t) :
  fuzz_init h inb outb gain mix = (0, h') ->
  fuzz_gain h' = gain /\ fuzz_mix h' = gain /\
  (ge gain f32_one = true ->
   fuzz_update h' MIX (fuzz_mix h') = (255, h')).
Proof.
  unfold fuzz_init.
  destruct (is_null inb || is_null outb); [done|].
  destruct (_ || ge mix f32_one); [done|].
  intros [= <-]. cbn [fuzz_gain fuzz_mix]. split; [done|]. split; [done|].
  intros Hg. unfold fuzz_update. cbn [fuzz_mix].
  change (MIX =? GAIN) with false. change (MIX =? MIX) with true. cbn match.
  by rewrite Hg, orb_true_r.
Qed.

Lemma overdrive_cond_accepted (t : float32_t) :
  is_nan t = false ->
  le t f32_zero || gt t f32_0_4 = false <-> overdrive_accepts t.
Proof.
  intros Ht. unfold overdrive_accepts.
  rewrite (le_negb_lt t f32_zero), (gt_negb_le t f32_0_4) by done.
  destruct (lt f32_zero t), (le t f32_0_4); cbn; intuition congruence.
Qed.

(** X9: with non-null buffers and a threshold that is a number,
    [overdrive_init] and [overdrive_update] accept exactly the thresholds in
    (0, 0.4f]: they store the threshold and return 0 there, and otherwise
    return 254 and 255 and leave the handle unchanged. *)
Theorem overdrive_threshold_range (h : overdrive_handle_t)
    (inb outb : string) (t : float32_t) :
  is_nan t = false ->
  (overdrive_accepts t ->
   overdrive_init h (Some inb) (Some outb) t
     = (0, {| od_threshold := t; od_is_running := od_is_running h;
              od_src := Some inb; od_dst := Some outb |}) /\
   overdrive_update h t
     = (0, {| od_threshold := t; od_is_running := od_is_running h;
              od_src := od_src h; od_dst := od_dst h |})) /\
  (~ overdrive_accepts t ->
   overdrive_init h (Some inb) (Some outb) t = (254, h) /\
   overdrive_update h t = (255, h)).
Proof.
  intros Ht. pose proof (overdrive_cond_accepted t Ht) as Hc.
  unfold overdrive_init, overdrive_update. cbn [is_null orb].
  destruct (le t f32_zero || gt t f32_0_4).
  - split; [|done]. intros Ha. apply Hc in Ha. done.
  - split; [done|]. intros Hn. exfalso. apply Hn. by apply Hc.
Qed.

Lemma lt_negb_le (x y : spec_float) :
  is_nan x = false -> is_nan y = false -> lt x y = negb (le y x).
Proof. intros. rewrite (le_negb_lt y x) by done. by rewrite negb_involutive. Qed.

Lemma tremolo_cond_accepted (rate depth : float32_t) :
  is_nan rate = false -> is_nan depth = false ->
  lt rate f32_zero || gt rate f32_one || lt depth f32_zero
    || gt depth f32_one = false
  <-> tremolo_accepts rate depth.
Proof.
  intros Hr Hd. unfold tremolo_accepts.
  rewrite (lt_negb_le rate f32_zero), (gt_negb_le rate f32_one),
    (lt_negb_le depth f32_zero), (gt_negb_le depth f32_one) by done.
  destruct (le f32_zero rate), (le rate f32_one), (le f32_zero depth),
    (le depth f32_one); cbn; intuition congruence.
Qed.

(** X10: with non-null buffers, [tremolo_init] accepts exactly the rates and
    depths in [0, 1]: it stores them, resets [time] and returns 0, and
    [tremolo_update] accepts the same values; otherwise it returns 254 and
    leaves the handle unchanged. *)
Theorem tremolo_init_range (h : tremolo_handle_t) (inb outb : string)
    (rate depth : float32_t) :
  is_nan rate = false -> is_nan depth = false ->
  (tremolo_accepts rate depth ->
   tremolo_init h (Some inb) (Some outb) rate depth
     = (0, {| trem_rate := rate; trem_depth := depth;
              trem_is_running := trem_is_running h; trem_time := f32_zero;
              trem_src := Some inb; trem_dst := Some outb |}) /\
   fst (tremolo_update h RATE rate) = 0 /\
   fst (tremolo_update h DEPTH depth) = 0) /\
  (~ tremolo_accepts rate depth ->
   tremolo_init h (Some inb) (Some outb) rate depth = (254, h)).
Proof.
  intros Hr Hd. pose proof (tremolo_cond_accepted rate depth Hr Hd) as Hc.
  unfold tremolo_init. cbn [is_null orb].
  destruct (lt rate f32_zero || gt rate f32_one || lt depth f32_zero
            || gt depth f32_one) eqn:E.
  - split; [|done]. intros Ha. apply Hc in Ha. done.
  - split; [|intros Hn; exfalso; apply Hn; by apply Hc].
    intros _. split; [done|].
    apply orb_false_elim in E as [E E4]. apply orb_false_elim in E as [E E3].
    unfold tremolo_update.
    change (RATE =? RATE) with true. change (DEPTH =? RATE) with false.
    change (DEPTH =? DEPTH) with true. cbn match.
    rewrite E. apply orb_false_elim in E as [E1 E2].
    by rewrite E3, E4.
Qed.


(** X12: no range check of these functions rejects a NaN. Every update
    function called with a NaN returns 0 and stores the NaN in the selected
    parameter ([delay_update] with FEEDBACK in feedback and in blend), and
    [overdrive_init], [tremolo_init], [fuzz_init] and [ring_mod_init], with
    non-null buffers and NaN parameters, return 0 and store them. *)
Theorem nan_passes_range_checks :
  (forall h, delay_update h DELAY S754_nan = (0, set_delay_ms h S754_nan)) /\
  (forall h, delay_update h FEEDBACK S754_nan
             = (0, set_delay_blend (set_delay_feedback h S754_nan)
                     S754_nan)) /\
  (forall h, delay_update h BLEND S754_nan
             = (0, set_delay_blend h S754_nan)) /\
  (forall h, overdrive_update h S754_nan
             = (0, {| od_threshold := S754_nan;
                      od_is_running := od_is_running h;
                      od_src := od_src h; od_dst := od_dst h |})) /\
  (forall h, fuzz_update h GAIN S754_nan
             = (0, {| fuzz_gain := S754_nan; fuzz_mix := fuzz_mix h;
                      fuzz_is_running := fuzz_is_running h;
                      fuzz_src := fuzz_src h; fuzz_dst := fuzz_dst h |})) /\
  (forall h, fuzz_update h MIX S754_nan
             = (0, {| fuzz_gain := fuzz_gain h; fuzz_mix := S754_nan;
                      fuzz_is_running := fuzz_is_running h;
                      fuzz_src := fuzz_src h; fuzz_dst := fuzz_dst h |})) /\
  (forall h, tremolo_update h RATE S754_nan
             = (0, {| trem_rate := S754_nan; trem_depth := trem_depth h;
                      trem_is_running := trem_is_running h;
                      trem_time := trem_time h;
                      trem_src := trem_src h; trem_dst := trem_dst h |})) /\
  (forall h, tremolo_update h DEPTH S754_nan
             = (0, {| trem_rate := trem_rate h; trem_depth := S754_nan;
                      trem_is_running := trem_is_running h;
                      trem_time := trem_time h;
                      trem_src := trem_src h; trem_dst := trem_dst h |})) /\
  (forall h ty,
     fst (ring_mod_update h RATE ty S754_nan) = 0 /\
     rm_rate (snd (ring_mod_update h RATE ty S754_nan)) = S754_nan /\
     rm_blend (snd (ring_mod_update h RATE ty S754_nan)) = rm_blend h) /\
  (forall h ty,
     fst (ring_mod_update h DEPTH ty S754_nan) = 0 /\
     rm_blend (snd (ring_mod_update h DEPTH ty S754_nan)) = S754_nan /\
     rm_rate (snd (ring_mod_update h DEPTH ty S754_nan)) = rm_rate h) /\
  (forall h i o,
     overdrive_init h (Some i) (Some o) S754_nan
     = (0, {| od_threshold := S754_nan; od_is_running := od_is_running h;
              od_src := Some i; od_dst := Some o |})) /\
  (forall h i o,
     tremolo_init h (Some i) (Some o) S754_nan S754_nan
     = (0, {| trem_rate := S754_nan; trem_depth := S754_nan;
              trem_is_running := trem_is_running h; trem_time := f32_zero;
              trem_src := Some i; trem_dst := Some o |})) /\
  (forall h i o,
     fuzz_init h (Some i) (Some o) S754_nan S754_nan
     = (0, {| fuzz_gain := S754_nan; fuzz_mix := S754_nan;
              fuzz_is_running := fuzz_is_running h;
              fuzz_src := Some i; fuzz_dst := Some o |})) /\
  (forall h i o ty,
     ring_mod_init h (Some i) (Some o) S754_nan S754_nan ty
     = (0, {| rm_rate := S754_nan; rm_blend := S754_nan; rm_type := ty;
              rm_is_running := rm_is_running h;
              rm_src := Some i; rm_dst := Some o; rm_time := f32_zero |})).
Proof.
  repeat split; intros; try reflexivity;
    unfold ring_mod_update; cbn; by destruct (negb _).
Qed.

Lemma fuzz_init_stores_gain_as_mix_witness :
  fuzz_gain
    {| fuzz_gain := f32_of_Z 10; fuzz_mix := f32_of_Z 10;
       fuzz_is_running := false; fuzz_src := Some "left_in"%string;
       fuzz_dst := Some "left_out"%string |} = f32_of_Z 10 /\
  fuzz_mix
    {| fuzz_gain := f32_of_Z 10; fuzz_mix := f32_of_Z 10;
       fuzz_is_running := false; fuzz_src := Some "left_in"%string;
       fuzz_dst := Some "left_out"%string |} = f32_of_Z 10 /\
  (ge (f32_of_Z 10) f32_one = true ->
   fuzz_update
     {| fuzz_gain := f32_of_Z 10; fuzz_mix := f32_of_Z 10;
        fuzz_is_running := false; fuzz_src := Some "left_in"%string;
        fuzz_dst := Some "left_out"%string |} MIX
     (fuzz_mix
        {| fuzz_gain := f32_of_Z 10; fuzz_mix := f32_of_Z 10;
           fuzz_is_running := false; fuzz_src := Some "left_in"%string;
           fuzz_dst := Some "left_out"%string |})
   = (255,
      {| fuzz_gain := f32_of_Z 10; fuzz_mix := f32_of_Z 10;
         fuzz_is_running := false; fuzz_src := Some "left_in"%string;
         fuzz_dst := Some "left_out"%string |})).
Proof.
  apply (fuzz_init_stores_gain_as_mix fuzz_handle_zero _
           (Some "left_in"%string) (Some "left_out"%string)
           (f32_of_Z 10) f32_0_5).
  reflexivity.
Defined.

Lemma overdrive_threshold_range_witness :
  (overdrive_accepts f32_0_4 ->
   overdrive_init
     {| od_threshold := f32_zero; od_is_running := false;
        od_src := None; od_dst := None |}
     (Some "left_in"%string) (Some "left_out"%string) f32_0_4
     = (0, {| od_threshold := f32_0_4; od_is_running := false;
              od_src := Some "left_in"%string;
              od_dst := Some "left_out"%string |}) /\
   overdrive_update
     {| od_threshold := f32_zero; od_is_running := false;
        od_src := None; od_dst := None |} f32_0_4
     = (0, {| od_threshold := f32_0_4; od_is_running := false;
              od_src := None; od_dst := None |})) /\
  (~ overdrive_accepts f32_0_4 ->
   overdrive_init
     {| od_threshold := f32_zero; od_is_running := false;
        od_src := None; od_dst := None |}
     (Some "left_in"%string) (Some "left_out"%string) f32_0_4
     = (254, {| od_threshold := f32_zero; od_is_running := false;
                od_src := None; od_dst := None |}) /\
   overdrive_update
     {| od_threshold := f32_zero; od_is_running := false;
        od_src := None; od_dst := None |} f32_0_4
     = (255, {| od_threshold := f32_zero; od_is_running := false;
                od_src := None; od_dst := None |})).
Proof.
  apply (overdrive_threshold_range
           {| od_threshold := f32_zero; od_is_running := false;
              od_src := None; od_dst := None |}
           "left_in" "left_out" f32_0_4).
  reflexivity.
Defined.

Lemma tremolo_init_range_witness :
  (tremolo_accepts f32_0_5 f32_one ->
   tremolo_init (tremolo_handle ui_initial) (Some "left_in"%string)
     (Some "left_out"%string) f32_0_5 f32_one
     = (0, {| trem_rate := f32_0_5; trem_depth := f32_one;
              trem_is_running := trem_is_running (tremolo_handle ui_initial);
              trem_time := f32_zero;
              trem_src := Some "left_in"%string;
              trem_dst := Some "left_out"%string |}) /\
   fst (tremolo_update (tremolo_handle ui_initial) RATE f32_0_5) = 0 /\
   fst (tremolo_update (tremolo_handle ui_initial) DEPTH f32_one) = 0) /\
  (~ tremolo_accepts f32_0_5 f32_one ->
   tremolo_init (tremolo_handle ui_initial) (Some "left_in"%string)
     (Some "left_out"%string) f32_0_5 f32_one
     = (254, tremolo_handle ui_initial)).
Proof.
  apply (tremolo_init_range (tremolo_handle ui_initial) "left_in" "left_out"
           f32_0_5 f32_one).
  - reflexivity.
  - reflexivity.
Defined.

(** ** Menu: invariant, mode, confirmed values *)

Lemma menus_entry_defined (s i : Z) :
  0 <= s < SUBMENU_COUNT -> 0 <= i < MAX_ITEM_COUNT ->
  exists e, menus_entry s i = Some e.
Proof.
  intros Hs Hi. unfold menus_entry.
  destruct (Z.leb_spec 0 s); [|lia]. destruct (Z.ltb_spec s SUBMENU_COUNT); [|lia].
  destruct (Z.leb_spec 0 i); [|lia]. destruct (Z.ltb_spec i MAX_ITEM_COUNT); [|lia].
  cbn [andb]. eauto.
Qed.

Lemma on_button_inv (mode : Z) (st : ui_state) :
  menu_inv (menu st) ->
  menu_inv (menu (on_button mode st).2) /\
  (on_button mode st).1 = mode_after 1 mode (menu st) /\
  menu_depth (menu st) <= menu_depth (menu (on_button mode st).2) /\
  (menu_depth (menu st) = 2 ->
   menu_depth (menu (on_button mode st).2) = 2 /\
   sub_menu_selected (menu (on_button mode st).2)
     = sub_menu_selected (menu st)).
Proof.
  intros (Hi & Hs & Hd). unfold on_button, mode_after.
  change (to_uint8 ARRAY_SIZE_menus_s_i - 1) with 15.
  unfold MAX_ITEM_COUNT, SUBMENU_COUNT in *.
  destruct Hd as [Hd|[Hd|Hd]]; rewrite Hd; cbn [Z.eqb Pos.eqb negb andb].
  - unfold menu_inv, MAX_ITEM_COUNT, SUBMENU_COUNT. cbn.
    change (to_uint8 (0 + 1)) with 1. lia.
  - destruct (Z.eqb_spec (item_selected (menu st)) 15); [lia|].
    destruct (item_selected (menu st) =? 0);
      unfold menu_inv, MAX_ITEM_COUNT, SUBMENU_COUNT; cbn; rewrite ?Hd;
      change (to_uint8 (1 + 1)) with 2; lia.
  - unfold menu_inv, MAX_ITEM_COUNT, SUBMENU_COUNT. cbn.
    rewrite !confirm_value_menu, ?Hd. lia.
Qed.

Lemma on_rotation_inv (u : unsequenced) (st : ui_state) :
  menu_inv (menu st) ->
  exists st', on_rotation u st = Some st' /\ menu_inv (menu st') /\
    menu_depth (menu st') = menu_depth (menu st) /\
    sub_menu_selected (menu st') = sub_menu_selected (menu st).
Proof.
  intros (Hi & Hs & Hd). unfold on_rotation.
  destruct (negb _); [|by eexists].
  destruct (show_values (menu st) =? 0); cbn [mbind option_bind].
  - set (item' := _ mod ARRAY_SIZE_menus_s).
    assert (Hi' : 0 <= item' < MAX_ITEM_COUNT)
      by (apply Z.mod_pos_bound; done).
    cbn [menu set_menu sub_menu_selected item_selected].
    destruct (menus_entry_defined (sub_menu_selected (menu st)) item')
      as [e ->]; [done|done|].
    cbn [mbind option_bind]. eexists. split; [done|].
    cbn. unfold menu_inv. cbn. done.
  - cbn [menu emit].
    destruct (menus_entry_defined (sub_menu_selected (menu st))
                (item_selected (menu st))) as [e ->]; [done|done|].
    cbn [mbind option_bind]. eexists. split; [done|]. done.
Qed.

Lemma display_menu_inv (u : unsequenced) (btn mode : Z) (st : ui_state) :
  menu_inv (menu st) ->
  exists st',
    display_menu u btn mode st = Some (mode_after btn mode (menu st), st') /\
    menu_inv (menu st') /\
    menu_depth (menu st) <= menu_depth (menu st') /\
    (menu_depth (menu st) = 2 ->
     menu_depth (menu st') = 2 /\
     sub_menu_selected (menu st') = sub_menu_selected (menu st)).
Proof.
  intros Hinv. unfold display_menu. set (st1 := set_menu _ _).
  assert (Hinv1 : menu_inv (menu st1)) by done.
  assert (Hd1 : menu_depth (menu st1) = menu_depth (menu st)) by done.
  assert (Hs1 : sub_menu_selected (menu st1) = sub_menu_selected (menu st))
    by done.
  assert (Hm1 : forall b, mode_after b mode (menu st1)
                          = mode_after b mode (menu st)) by done.
  clearbody st1.
  set (r := if negb (btn =? 0) then _ else _).
  assert (Hr : menu_inv (menu r.2) /\ r.1 = mode_after btn mode (menu st1) /\
               menu_depth (menu st1) <= menu_depth (menu r.2) /\
               (menu_depth (menu st1) = 2 ->
                menu_depth (menu r.2) = 2 /\
                sub_menu_selected (menu r.2) = sub_menu_selected (menu st1))).
  { unfold r. destruct (negb (btn =? 0)) eqn:Eb.
    - pose proof (on_button_inv mode st1 Hinv1) as (H1 & H2 & H3 & H4).
      split; [done|]. split; [|done]. rewrite H2.
      unfold mode_after. by rewrite Eb.
    - cbn [fst snd]. split; [done|]. split.
      + unfold mode_after. by rewrite Eb.
      + split; [lia|done]. }
  clearbody r. destruct r as [m2 st2]. cbn [fst snd] in Hr.
  destruct Hr as (Hinv2 & Hm2 & Hmono & Habs).
  destruct (on_rotation_inv u st2 Hinv2) as (st3 & -> & Hinv3 & Hd3 & Hs3).
  cbn [mbind option_bind]. eexists. split; [by rewrite Hm2, Hm1|].
  cbn [menu set_menu menu_depth sub_menu_selected].
  split; [|split].
  - destruct Hinv3 as (? & ? & ?). unfold menu_inv. cbn. done.
  - lia.
  - intros H2. rewrite <- Hd1 in H2. destruct (Habs H2) as [? ?].
    split; congruence.
Qed.


(** X14: once the menu is at depth 2 (a parameter value is being edited),
    no sequence of button presses and encoder turns leaves that depth, the
    selected sub-menu or the mode: confirming a value does not return to the
    list of parameters. *)
Theorem value_edit_never_left (u : unsequenced) (inputs : list (Z * Z)) :
  forall (mode : Z) (st : ui_state),
  menu_inv (menu st) -> menu_depth (menu st) = 2 ->
  exists st',
    menu_run u inputs mode st = Some (mode, st') /\
    menu_depth (menu st') = 2 /\
    sub_menu_selected (menu st') = sub_menu_selected (menu st).
Proof.
  induction inputs as [|[v btn] rest IH]; intros mode st Hinv Hd;
    cbn [menu_run].
  - by eexists.
  - destruct (display_menu_inv u btn mode (turn_encoder v st))
      as (st1 & -> & Hinv1 & _ & Habs); [done|].
    destruct (Habs Hd) as [Hd1 Hs1].
    cbn [mbind option_bind].
    assert (Hm : mode_after btn mode (menu (turn_encoder v st)) = mode).
    { unfold mode_after. cbn [turn_encoder set_TIM2_CNT menu]. rewrite Hd.
      by rewrite andb_false_r. }
    rewrite Hm. destruct (IH mode st1 Hinv1 Hd1) as (st2 & -> & Hd2 & Hs2).
    eexists. split; [done|]. split; [done|]. by rewrite Hs2, Hs1.
Qed.


(** X15: [display_menu] writes the mode only when the button is pressed at
    depth 1 on entry 0 of a sub-menu, and then sets it to the index of that
    sub-menu; every other call leaves the mode as it was. *)
Theorem mode_written_only_by_start (u : unsequenced) (btn mode : Z)
    (st : ui_state) :
  menu_inv (menu st) ->
  exists mode' st',
    display_menu u btn mode st = Some (mode', st') /\
    (btn <> 0 -> menu_depth (menu st) = 1 -> item_selected (menu st) = 0 ->
     mode' = sub_menu_selected (menu st)) /\
    (btn = 0 \/ menu_depth (menu st) <> 1 \/ item_selected (menu st) <> 0 ->
     mode' = mode).
Proof.
  intros Hinv. destruct (display_menu_inv u btn mode st Hinv) as (st' & -> & _).
  eexists _, _. split; [done|]. unfold mode_after.
  destruct (Z.eqb_spec btn 0), (Z.eqb_spec (menu_depth (menu st)) 1),
    (Z.eqb_spec (item_selected (menu st)) 0); cbn [negb andb];
    split; intros; try done; lia.
Qed.

Lemma forallb_Z_range (P : Z -> bool) (lo : Z) (n : nat) :
  forallb P (map (fun k => lo + Z.of_nat k) (seq 0 n)) = true ->
  forall c, lo <= c < lo + Z.of_nat n -> P c = true.
Proof.
  intros H c Hc. rewrite forallb_forall in H. apply H.
  apply in_map_iff. exists (Z.to_nat (c - lo)). split; [lia|].
  apply in_seq. lia.
Qed.

Lemma overdrive_counter_accepted (c : Z) :
  1 <= c < 1 + 100 ->
  negb (le (f32_mul f32_0_4 (counter_fraction c)) f32_zero
        || gt (f32_mul f32_0_4 (counter_fraction c)) f32_0_4) = true.
Proof.
  revert c. apply (forallb_Z_range _ 1 100). vm_compute. reflexivity.
Qed.

Lemma fuzz_mix_counter_accepted (c : Z) :
  0 <= c < 0 + 100 ->
  negb (lt (counter_fraction c) f32_zero
        || ge (counter_fraction c) f32_one) = true.
Proof.
  revert c. apply (forallb_Z_range _ 0 100). vm_compute. reflexivity.
Qed.

(** X17: for a counter value between 0 and 100, [confirm_value] sets the
    overdrive threshold to [0.4f * cnt / 100] except at counter 0, and the
    fuzz mix to [cnt / 100] except at counter 100; at these two positions the
    update function rejects the value and the parameter keeps its old
    value. *)
Theorem confirm_value_edge_counters (st : ui_state) :
  0 <= cnt (menu st) <= 100 ->
  (sub_menu_selected (menu st) = MENU_OD ->
   od_threshold (overdrive_handle (confirm_value st))
     = if cnt (menu st) =? 0 then od_threshold (overdrive_handle st)
       else f32_mul f32_0_4 (counter_fraction (cnt (menu st)))) /\
  (sub_menu_selected (menu st) = MENU_FUZZ -> item_selected (menu st) <> 1 ->
   fuzz_mix (fuzz_handle (confirm_value st))
     = if cnt (menu st) =? 100 then fuzz_mix (fuzz_handle st)
       else counter_fraction (cnt (menu st))).
Proof.
  intros Hc. split.
  - intros Hs. unfold confirm_value. rewrite Hs.
    change (MENU_OD =? MENU_DELAY) with false.
    change (MENU_OD =? MENU_OD) with true. cbn match.
    cbn [overdrive_handle]. unfold overdrive_update, cnt_fraction.
    fold (counter_fraction (cnt (menu st))).
    destruct (Z.eqb_spec (cnt (menu st)) 0) as [->|Hne].
    + reflexivity.
    + pose proof (overdrive_counter_accepted (cnt (menu st))) as Ha.
      destruct (_ || _); [|done]. cbn in Ha. lia.
  - intros Hs Hi. unfold confirm_value. rewrite Hs.
    change (MENU_FUZZ =? MENU_DELAY) with false.
    change (MENU_FUZZ =? MENU_OD) with false.
    change (MENU_FUZZ =? MENU_FUZZ) with true. cbn match.
    destruct (Z.eqb_spec (item_selected (menu st)) 1); [done|].
    cbn [fuzz_handle]. unfold fuzz_update, cnt_fraction.
    fold (counter_fraction (cnt (menu st))).
    change (MIX =? GAIN) with false. change (MIX =? MIX) with true.
    cbn match.
    destruct (Z.eqb_spec (cnt (menu st)) 100) as [->|Hne].
    + reflexivity.
    + pose proof (fuzz_mix_counter_accepted (cnt (menu st))) as Ha.
      destruct (_ || _); [|done]. cbn in Ha. lia.
Qed.

(** X18: confirming entry 3 of the ring modulator sub-menu sets the
    modulator type from the counter value (below 33 sine, below 66 triangle,
    otherwise square) and changes nothing else: the value 255 passed along
    is not looked at, rate and blend keep their values. *)
Theorem confirm_value_ring_mod_type (st : ui_state) :
  sub_menu_selected (menu st) = MENU_RM -> item_selected (menu st) = 3 ->
  ring_mod_handle (confirm_value st)
    = set_rm_type (ring_mod_handle st)
        (if cnt (menu st) <? 33 then SINE
         else if cnt (menu st) <? 66 then TRIANGLE else SQUARE) /\
  delay_handle (confirm_value st) = delay_handle st /\
  overdrive_handle (confirm_value st) = overdrive_handle st /\
  fuzz_handle (confirm_value st) = fuzz_handle st /\
  tremolo_handle (confirm_value st) = tremolo_handle st /\
  menu (confirm_value st) = menu st /\
  TIM2_CNT (confirm_value st) = TIM2_CNT st.
Proof.
  intros Hs Hi. unfold confirm_value. rewrite Hs, Hi.
  change (MENU_RM =? MENU_DELAY) with false.
  change (MENU_RM =? MENU_OD) with false.
  change (MENU_RM =? MENU_FUZZ) with false.
  change (MENU_RM =? MENU_TREM) with false.
  change (MENU_RM =? MENU_RM) with true.
  change (negb (3 =? 3)) with false. cbn match.
  destruct (cnt (menu st) <? 33); [done|].
  destruct (cnt (menu st) <? 66); done.
Qed.


Lemma value_edit_never_left_witness :
  exists st',
    menu_run SideEffectLast [(30, 1); (31, 0); (31, 1); (32, 0)] FXDELAY
      (ui_with_menu sample_menu_edit) = Some (FXDELAY, st') /\
    menu_depth (menu st') = 2 /\
    sub_menu_selected (menu st')
      = sub_menu_selected (menu (ui_with_menu sample_menu_edit)).
Proof.
  apply (value_edit_never_left SideEffectLast
           [(30, 1); (31, 0); (31, 1); (32, 0)] FXDELAY
           (ui_with_menu sample_menu_edit)).
  - unfold menu_inv, MAX_ITEM_COUNT, SUBMENU_COUNT. cbn. lia.
  - reflexivity.
Defined.

Lemma mode_written_only_by_start_witness :
  exists mode' st',
    display_menu SideEffectLast 1 FXNONE (ui_with_menu sample_menu_start)
      = Some (mode', st') /\
    (1 <> 0 -> menu_depth (menu (ui_with_menu sample_menu_start)) = 1 ->
     item_selected (menu (ui_with_menu sample_menu_start)) = 0 ->
     mode' = sub_menu_selected (menu (ui_with_menu sample_menu_start))) /\
    (1 = 0 \/ menu_depth (menu (ui_with_menu sample_menu_start)) <> 1
     \/ item_selected (menu (ui_with_menu sample_menu_start)) <> 0 ->
     mode' = FXNONE).
Proof.
  apply (mode_written_only_by_start SideEffectLast 1 FXNONE
           (ui_with_menu sample_menu_start)).
  unfold menu_inv, MAX_ITEM_COUNT, SUBMENU_COUNT. cbn. lia.
Defined.

Lemma confirm_value_edge_counters_witness :
  (sub_menu_selected (menu (ui_with_menu sample_menu_threshold)) = MENU_OD ->
   od_threshold
     (overdrive_handle (confirm_value (ui_with_menu sample_menu_threshold)))
     = if cnt (menu (ui_with_menu sample_menu_threshold)) =? 0
       then od_threshold (overdrive_handle (ui_with_menu sample_menu_threshold))
       else f32_mul f32_0_4
              (counter_fraction
                 (cnt (menu (ui_with_menu sample_menu_threshold))))) /\
  (sub_menu_selected (menu (ui_with_menu sample_menu_threshold)) = MENU_FUZZ ->
   item_selected (menu (ui_with_menu sample_menu_threshold)) <> 1 ->
   fuzz_mix (fuzz_handle (confirm_value (ui_with_menu sample_menu_threshold)))
     = if cnt (menu (ui_with_menu sample_menu_threshold)) =? 100
       then fuzz_mix (fuzz_handle (ui_with_menu sample_menu_threshold))
       else counter_fraction
              (cnt (menu (ui_with_menu sample_menu_threshold)))).
Proof.
  apply (confirm_value_edge_counters (ui_with_menu sample_menu_threshold)).
  cbn. lia.
Defined.

Lemma confirm_value_ring_mod_type_witness :
  ring_mod_handle (confirm_value (ui_with_menu sample_menu_type))
    = set_rm_type (ring_mod_handle (ui_with_menu sample_menu_type))
        (if cnt (menu (ui_with_menu sample_menu_type)) <? 33 then SINE
         else if cnt (menu (ui_with_menu sample_menu_type)) <? 66
              then TRIANGLE else SQUARE) /\
  delay_handle (confirm_value (ui_with_menu sample_menu_type))
    = delay_handle (ui_with_menu sample_menu_type) /\
  overdrive_handle (confirm_value (ui_with_menu sample_menu_type))
    = overdrive_handle (ui_with_menu sample_menu_type) /\
  fuzz_handle (confirm_value (ui_with_menu sample_menu_type))
    = fuzz_handle (ui_with_menu sample_menu_type) /\
  tremolo_handle (confirm_value (ui_with_menu sample_menu_type))
    = tremolo_handle (ui_with_menu sample_menu_type) /\
  menu (confirm_value (ui_with_menu sample_menu_type))
    = menu (ui_with_menu sample_menu_type) /\
  TIM2_CNT (confirm_value (ui_with_menu sample_menu_type))
    = TIM2_CNT (ui_with_menu sample_menu_type).
Proof.
  apply (confirm_value_ring_mod_type (ui_with_menu sample_menu_type)).
  - reflexivity.
  - reflexivity.
Defined.


(** ** Sample transport *)

Lemma shift_pos_value (k p : positive) :
  Z.pos (Pos.iter xO p k) = Z.pos p * 2 ^ Z.pos k.
Proof.
  induction k using Pos.peano_ind.
  - cbn. lia.
  - rewrite Pos.iter_succ, Pos2Z.inj_xO, IHk, Pos2Z.inj_succ, Z.pow_succ_r by lia.
    lia.
Qed.

Lemma shift_pos_digits (k p : positive) :
  digits2_pos (Pos.iter xO p k) = (digits2_pos p + k)%positive.
Proof.
  induction k using Pos.peano_ind.
  - cbn. lia.
  - rewrite Pos.iter_succ. cbn [digits2_pos]. rewrite IHk. lia.
Qed.

Lemma digits2_pos_lower (p : positive) :
  2 ^ (Z.pos (digits2_pos p) - 1) <= Z.pos p.
Proof.
  induction p as [p IH|p IH|]; cbn [digits2_pos].
  - rewrite Pos2Z.inj_succ.
    replace (Z.succ (Z.pos (digits2_pos p)) - 1)
      with (Z.succ (Z.pos (digits2_pos p) - 1)) by lia.
    rewrite Z.pow_succ_r by lia. lia.
  - rewrite Pos2Z.inj_succ.
    replace (Z.succ (Z.pos (digits2_pos p)) - 1)
      with (Z.succ (Z.pos (digits2_pos p) - 1)) by lia.
    rewrite Z.pow_succ_r by lia. lia.
  - cbn. lia.
Qed.

Lemma binary_round_aux_canonical (m : positive) (e : Z) :
  digits2_pos m = 24%positive -> -149 <= e <= 104 ->
  binary_round_aux 24 128 false (Z.pos m) e loc_Exact = S754_finite false m e.
Proof.
  intros Hd He. unfold binary_round_aux, shr_fexp.
  cbn [Zdigits2]. rewrite Hd.
  assert (Hf : fexp 24 128 (24 + e) - e = 0).
  { unfold fexp, emin. lia. }
  rewrite Hf. cbn [shr shr_record_of_loc shr_m loc_of_shr_record shr_r shr_s
                   round_nearest_even].
  cbn [Zdigits2]. rewrite Hd, Hf. cbn [shr shr_record_of_loc shr_m].
  replace (e <=? 128 - 24) with true by lia. reflexivity.
Qed.

(** [(uint32_t)(float32_t) v] is [v] for every [v] below 2^24. *)
Lemma f32_of_Z_exact (v : Z) :
  0 <= v < 2 ^ 24 -> to_uint32_t (f32_of_Z v) = Some v.
Proof.
  intros Hv. destruct v as [|p|p]; [reflexivity| |lia].
  assert (Hd : Z.pos (digits2_pos p) <= 24).
  { pose proof (digits2_pos_lower p) as Hl.
    destruct (Z_lt_le_dec (Z.pos (digits2_pos p) - 1) 24) as [|Hge]; [lia|].
    apply (Z.pow_le_mono_r 2) in Hge; lia. }
  unfold f32_of_Z, binary_normalize, binary_round, shl_align.
  assert (Hf : fexp 24 128 (Z.pos (digits2_pos p) + 0) = Z.pos (digits2_pos p) - 24).
  { unfold fexp, emin. lia. }
  rewrite Hf.
  destruct (Z.pos (digits2_pos p) - 24 - 0) as [|k|k] eqn:Hk; [|lia|].
  - rewrite binary_round_aux_canonical by lia.
    unfold to_uint32_t. cbn [trunc Z.leb Z.compare mbind option_bind].
    rewrite Z.pow_0_r, Z.mul_1_r.
    replace ((0 <=? Z.pos p) && (Z.pos p <? 2 ^ 32)) with true; [done|].
    symmetry. apply andb_true_intro. split; lia.
  - change (PosDef.Pos.iter xO p k) with (Pos.iter xO p k).
    rewrite binary_round_aux_canonical.
    2:{ rewrite shift_pos_digits. lia. }
    2:{ lia. }
    unfold to_uint32_t, trunc.
    replace (0 <=? Z.pos (digits2_pos p) - 24) with false by lia.
    replace (- (Z.pos (digits2_pos p) - 24)) with (Z.pos k) by lia.
    rewrite shift_pos_value, Z.div_mul by lia.
    cbn [mbind option_bind].
    replace ((0 <=? Z.pos p) && (Z.pos p <? 2 ^ 32)) with true; [done|].
    symmetry. apply andb_true_intro. split; lia.
Qed.

Lemma array_load_nat {A} (a : list A) (i : Z) :
  0 <= i -> array_load a i = a !! Z.to_nat i.
Proof. intros Hi. unfold array_load. replace (0 <=? i) with true by lia. done. Qed.

Lemma array_store_in {A} (a : list A) (i : Z) (x : A) :
  0 <= i < Z.of_nat (length a) ->
  array_store a i x = Some (<[Z.to_nat i := x]> a).
Proof.
  intros Hi. unfold array_store.
  replace ((0 <=? i) && (i <? Z.of_nat (length a))) with true; [done|].
  symmetry. apply andb_true_intro. split; lia.
Qed.

Lemma rx_loop_spec (n : nat) : forall (i j : Z) (rx : list Z) (li : list float32_t),
  0 <= i -> 0 <= j -> i + Z.of_nat n <= Z.of_nat (length li) ->
  (forall k : nat, (k < n)%nat -> is_Some (rx !! Z.to_nat (j + 2 * Z.of_nat k))) ->
  exists li', rx_loop n i j rx li = Some li' /\ length li' = length li /\
    (forall k : nat, (k < n)%nat ->
       li' !! Z.to_nat (i + Z.of_nat k)
         = f32_of_Z <$> rx !! Z.to_nat (j + 2 * Z.of_nat k)) /\
    (forall q : nat, (q < Z.to_nat i)%nat \/ (Z.to_nat i + n <= q)%nat ->
       li' !! q = li !! q).
Proof.
  induction n as [|n IH]; intros i j rx li Hi Hj Hlen Hrx.
  - exists li. split; [done|]. split; [done|]. split; [lia|done].
  - destruct (Hrx 0%nat ltac:(lia)) as [x Hx].
    rewrite Z.mul_0_r, Z.add_0_r in Hx.
    cbn [rx_loop]. rewrite array_load_nat, Hx by done. cbn [mbind option_bind].
    rewrite array_store_in by lia. cbn [mbind option_bind].
    destruct (IH (i + 1) (j + 2) rx (<[Z.to_nat i := f32_of_Z x]> li))
      as (li' & Hrun & Hl & Hset & Hframe).
    { lia. } { lia. } { rewrite length_insert. lia. }
    { intros k Hk. specialize (Hrx (S k) ltac:(lia)).
      replace (j + 2 + 2 * Z.of_nat k) with (j + 2 * Z.of_nat (S k)) by lia.
      done. }
    exists li'. split; [done|]. rewrite length_insert in Hl.
    split; [done|]. split.
    + intros [|k] Hk.
      * rewrite Z.mul_0_r, !Z.add_0_r, Hx, Hframe by lia.
        rewrite list_lookup_insert_eq by lia. done.
      * specialize (Hset k ltac:(lia)).
        replace (i + Z.of_nat (S k)) with (i + 1 + Z.of_nat k) by lia.
        replace (j + 2 * Z.of_nat (S k)) with (j + 2 + 2 * Z.of_nat k) by lia.
        done.
    + intros q Hq. rewrite Hframe by lia.
      apply list_lookup_insert_ne. lia.
Qed.

Lemma pass_through_loop_spec (n : nat) : forall (i : Z) (li lo : list float32_t),
  0 <= i -> i + Z.of_nat n <= Z.of_nat (length li) ->
  i + Z.of_nat n <= Z.of_nat (length lo) ->
  exists lo', pass_through_loop n i li lo = Some lo' /\
    length lo' = length lo /\
    (forall k : nat, (k < n)%nat ->
       lo' !! Z.to_nat (i + Z.of_nat k) = li !! Z.to_nat (i + Z.of_nat k)) /\
    (forall q : nat, (q < Z.to_nat i)%nat \/ (Z.to_nat i + n <= q)%nat ->
       lo' !! q = lo !! q).
Proof.
  induction n as [|n IH]; intros i li lo Hi Hli Hlo.
  - exists lo. split; [done|]. split; [done|]. split; [lia|done].
  - destruct (lookup_lt_is_Some_2 li (Z.to_nat i) ltac:(lia)) as [x Hx].
    cbn [pass_through_loop]. rewrite array_load_nat, Hx by done.
    cbn [mbind option_bind].
    rewrite array_store_in by lia. cbn [mbind option_bind].
    destruct (IH (i + 1) li (<[Z.to_nat i := x]> lo))
      as (lo' & Hrun & Hl & Hset & Hframe).
    { lia. } { lia. } { rewrite length_insert. lia. }
    exists lo'. split; [done|]. rewrite length_insert in Hl.
    split; [done|]. split.
    + intros [|k] Hk.
      * rewrite !Z.add_0_r, Hx, Hframe by lia.
        rewrite list_lookup_insert_eq by lia. done.
      * specialize (Hset k ltac:(lia)).
        replace (i + Z.of_nat (S k)) with (i + 1 + Z.of_nat k) by lia.
        done.
    + intros q Hq. rewrite Hframe by lia.
      apply list_lookup_insert_ne. lia.
Qed.

Lemma tx_loop_spec (n : nat) : forall (i j : Z) (lo : list float32_t) (tx : list Z),
  0 <= i -> 0 <= j ->
  (forall k : nat, (k < n)%nat ->
     Z.to_nat (j + 2 * Z.of_nat k) < length tx)%nat ->
  (forall k : nat, (k < n)%nat ->
     exists y v, lo !! Z.to_nat (i + Z.of_nat k) = Some y /\
                 to_uint32_t y = Some v) ->
  exists tx', tx_loop n i j lo tx = Some tx' /\ length tx' = length tx /\
    (forall k : nat, (k < n)%nat ->
       Some (tx' !! Z.to_nat (j + 2 * Z.of_nat k))
         = to_uint32_t <$> lo !! Z.to_nat (i + Z.of_nat k)) /\
    (forall q : nat,
       (forall k : nat, (k < n)%nat -> q <> Z.to_nat (j + 2 * Z.of_nat k)) ->
       tx' !! q = tx !! q).
Proof.
  induction n as [|n IH]; intros i j lo tx Hi Hj Htx Hlo.
  - exists tx. split; [done|]. split; [done|]. split; [lia|done].
  - destruct (Hlo 0%nat ltac:(lia)) as (y & v & Hy & Hv).
    rewrite Z.add_0_r in Hy.
    pose proof (Htx 0%nat ltac:(lia)) as Hj0.
    rewrite Z.mul_0_r, Z.add_0_r in Hj0.
    cbn [tx_loop]. rewrite array_load_nat, Hy by done. cbn [mbind option_bind].
    rewrite Hv. cbn [mbind option_bind].
    rewrite array_store_in by lia. cbn [mbind option_bind].
    destruct (IH (i + 1) (j + 2) lo (<[Z.to_nat j := v]> tx))
      as (tx' & Hrun & Hl & Hset & Hframe).
    { lia. } { lia. }
    { intros k Hk. specialize (Htx (S k) ltac:(lia)).
      rewrite length_insert.
      replace (j + 2 + 2 * Z.of_nat k) with (j + 2 * Z.of_nat (S k)) by lia.
      done. }
    { intros k Hk. specialize (Hlo (S k) ltac:(lia)).
      replace (i + 1 + Z.of_nat k) with (i + Z.of_nat (S k)) by lia.
      done. }
    exists tx'. split; [done|]. rewrite length_insert in Hl.
    split; [done|]. split.
    + intros [|k] Hk.
      * rewrite Z.mul_0_r, !Z.add_0_r, Hy, Hframe.
        2:{ intros k Hk'. lia. }
        rewrite list_lookup_insert_eq by lia. cbn. by rewrite Hv.
      * specialize (Hset k ltac:(lia)).
        replace (i + Z.of_nat (S k)) with (i + 1 + Z.of_nat k) by lia.
        replace (j + 2 * Z.of_nat (S k)) with (j + 2 + 2 * Z.of_nat k) by lia.
        done.
    + intros q Hq. rewrite Hframe.
      * apply list_lookup_insert_ne.
        specialize (Hq 0%nat ltac:(lia)).
        rewrite Z.mul_0_r, Z.add_0_r in Hq. done.
      * intros k Hk. specialize (Hq (S k) ltac:(lia)).
        replace (j + 2 + 2 * Z.of_nat k) with (j + 2 * Z.of_nat (S k)) by lia.
        done.
Qed.

(** X19: with the effect bypassed, one block goes through [rx_samples],
    [pass_through] and [tx_samples] unchanged: for DMA buffers of
    DMA_BUFFER_SIZE words and working blocks of PING_PONG_BUFFER_SIZE
    samples, if the 64 even-indexed words of the received half are below
    2^24, the three calls are defined, [tx_buffer] holds exactly these words
    at the same indices and every other word of [tx_buffer] (odd indices and
    the other half) keeps its value; [rx_buffer] is not written. *)
Theorem pass_through_block_round_trip (p : ping_pong) (m : buffers) :
  length (rx_buffer m) = 256%nat -> length (tx_buffer m) = 256%nat ->
  length (left_in m) = 64%nat -> length (left_out m) = 64%nat ->
  (forall (k : nat) (v : Z), (k < 64)%nat ->
     rx_buffer m !! Z.to_nat (block_offset p + 2 * Z.of_nat k) = Some v ->
     0 <= v < 2 ^ 24) ->
  exists m',
    bypass_block p m = Some m' /\
    rx_buffer m' = rx_buffer m /\
    length (tx_buffer m') = 256%nat /\
    (forall k : nat, (k < 64)%nat ->
       tx_buffer m' !! Z.to_nat (block_offset p + 2 * Z.of_nat k)
         = rx_buffer m !! Z.to_nat (block_offset p + 2 * Z.of_nat k)) /\
    (forall q : nat,
       (forall k : nat, (k < 64)%nat ->
          q <> Z.to_nat (block_offset p + 2 * Z.of_nat k)) ->
       tx_buffer m' !! q = tx_buffer m !! q).
Proof.
  intros Hrx Htx Hli Hlo Hfit.
  assert (Hoff : 0 <= block_offset p /\ block_offset p + 128 <= 256).
  { destruct p; vm_compute; split; congruence. }
  assert (Hcnt : stride2_count (to_uint16 (ping_pong_value p * SAMPLES))
                   (to_uint16 (SAMPLES + to_uint16 (ping_pong_value p * SAMPLES)))
                 = 64%nat) by (by destruct p).
  assert (Hu : to_uint16 (ping_pong_value p * SAMPLES) = block_offset p)
    by (by destruct p).
  destruct (rx_loop_spec 64 0 (block_offset p) (rx_buffer m) (left_in m))
    as (li & Hrun1 & Hl1 & Hset1 & _).
  { lia. } { lia. } { lia. }
  { intros k Hk. apply lookup_lt_is_Some_2. lia. }
  destruct (pass_through_loop_spec 64 0 li (left_out m))
    as (lo & Hrun2 & Hl2 & Hset2 & _).
  { lia. } { lia. } { lia. }
  assert (Hval : forall k : nat, (k < 64)%nat ->
    exists v, rx_buffer m !! Z.to_nat (block_offset p + 2 * Z.of_nat k) = Some v /\
              lo !! Z.to_nat (0 + Z.of_nat k) = Some (f32_of_Z v) /\
              to_uint32_t (f32_of_Z v) = Some v).
  { intros k Hk.
    destruct (lookup_lt_is_Some_2 (rx_buffer m)
                (Z.to_nat (block_offset p + 2 * Z.of_nat k)) ltac:(lia))
      as [v Hv].
    exists v. split; [done|]. split.
    - rewrite Hset2, Hset1, Hv by done. done.
    - apply f32_of_Z_exact. eauto. }
  destruct (tx_loop_spec 64 0 (block_offset p) lo (tx_buffer m))
    as (tx & Hrun3 & Hl3 & Hset3 & Hframe3).
  { lia. } { lia. } { intros k Hk. lia. }
  { intros k Hk. destruct (Hval k Hk) as (v & _ & Hy & Hc). eauto. }
  eexists. split.
  { unfold bypass_block, rx_samples. rewrite Hcnt, Hu, Hrun1. cbn [mbind option_bind].
    unfold pass_through.
    change (Z.to_nat (to_uint16 (Z.shiftr DMA_BUFFER_SIZE 2))) with 64%nat.
    cbn [left_in left_out]. rewrite Hrun2. cbn [mbind option_bind].
    unfold tx_samples. rewrite Hcnt, Hu. cbn [left_out tx_buffer].
    rewrite Hrun3. cbn [mbind option_bind]. reflexivity. }
  cbn [rx_buffer tx_buffer]. split; [done|]. split; [lia|]. split.
  - intros k Hk. destruct (Hval k Hk) as (v & Hv & Hy & Hc).
    specialize (Hset3 k Hk). rewrite Hy in Hset3. cbn in Hset3.
    rewrite Hc in Hset3. injection Hset3 as ->. done.
  - done.
Qed.

Lemma pass_through_block_round_trip_witness :
  exists m',
    bypass_block PONG sample_buffers = Some m' /\
    rx_buffer m' = rx_buffer sample_buffers /\
    length (tx_buffer m') = 256%nat /\
    (forall k : nat, (k < 64)%nat ->
       tx_buffer m' !! Z.to_nat (block_offset PONG + 2 * Z.of_nat k)
         = rx_buffer sample_buffers
             !! Z.to_nat (block_offset PONG + 2 * Z.of_nat k)) /\
    (forall q : nat,
       (forall k : nat, (k < 64)%nat ->
          q <> Z.to_nat (block_offset PONG + 2 * Z.of_nat k)) ->
       tx_buffer m' !! q = tx_buffer sample_buffers !! q).
Proof.
  apply (pass_through_block_round_trip PONG sample_buffers).
  - reflexivity.
  - reflexivity.
  - reflexivity.
  - reflexivity.
  - intros k v Hk Hv.
    assert (Hall : Forall (fun v => 0 <= v < 2 ^ 24)
                     (rx_buffer sample_buffers)).
    { refine (bool_decide_unpack _ _). vm_compute. exact I. }
    rewrite Forall_lookup in Hall. exact (Hall _ _ Hv).
Defined.

(** The largest word of the buffers does not survive the two conversions:
    [(float32_t) 0xFFFFFFFF] is 2^32, which [(uint32_t)] cannot hold. *)
Lemma tx_samples_full_scale_undefined :
  to_uint32_t (f32_of_Z (2 ^ 32 - 1)) = None /\
  to_uint32_t (f32_of_Z (2 ^ 24 + 1)) = Some (2 ^ 24).
Proof. split; vm_compute; reflexivity. Qed.
